(** * Packet layout, packet verification and the packet read cache of libE57Format

    A shallow embedding of [src/Packet.h] and [src/Packet.cpp]:
    the three packet kinds with their [verify] methods,
    [DataPacket::getBytestream], and [PacketReadCache] with its
    [PacketLock] guard.

    Conventions.
    - Packet memory is a [list byte]; a field is decoded from its bytes at
      the offset the struct layout gives it.  The host is little-endian
      ([E57_BIGENDIAN] undefined), so every [swab] is the empty function.
    - [unsigned] is 32 bits and [size_t] 64 bits; their wrap-around is
      written out ([u32], [usize]).
    - A C++ exception is a [Throw] result.  Operations of the cache return
      the cache state together with the result, so that what was mutated
      before a [throw] stays visible afterwards. *)

From Stdlib Require Import ZArith Lia List Strings.Byte.
From stdpp Require Import base tactics option numbers list list_numbers.

Local Open Scope Z_scope.

(** ** Errors *)

Inductive ErrorCode : Set :=
  | E57_ERROR_INTERNAL
  | E57_ERROR_BAD_CV_PACKET
  | E57_ERROR_READ_FAILED.

Inductive exn : Set :=
  | E57_EXCEPTION2 (code : ErrorCode)
  | std_out_of_range.

Inductive result (A : Type) : Type :=
  | Ok (a : A)
  | Throw (e : exn).
Arguments Ok {A} a.
Arguments Throw {A} e.

Definition BadFormat : exn := E57_EXCEPTION2 E57_ERROR_BAD_CV_PACKET.
Definition InternalError : exn := E57_EXCEPTION2 E57_ERROR_INTERNAL.

(** [check b e k]: [if (b) throw e;] followed by [k]. *)
Definition check {A} (b : bool) (e : exn) (k : result A) : result A :=
  if b then Throw e else k.

(** ** Machine integers *)

Definition u32 (z : Z) : Z := z mod 2 ^ 32.
Definition usize (z : Z) : Z := z mod 2 ^ 64.

(** ** Packet memory *)

Module Mem.

Definition byteAt (p : list byte) (i : Z) : Z :=
  match p !! Z.to_nat i with
  | Some b => Z.of_N (Byte.to_N b)
  | None => 0
  end.

Definition u16At (p : list byte) (i : Z) : Z :=
  byteAt p i + 256 * byteAt p (i + 1).

Definition u64At (p : list byte) (i : Z) : Z :=
  foldr (fun k acc => byteAt p (i + k) + 256 * acc) 0 (seqZ 0 8).

(** Encoders, used to lay out concrete packets. *)
Definition b8 (z : Z) : byte :=
  default x00 (Byte.of_N (Z.to_N (z mod 256))).

Definition le16 (z : Z) : list byte := [b8 z; b8 (z / 256)].

Definition le64 (z : Z) : list byte :=
  (fun k => b8 (z / 256 ^ k)) <$> seqZ 0 8.

Definition zeros (n : nat) : list byte := replicate n x00.

End Mem.
Import Mem.

(** ** Constants of Packet.h *)

Definition E57_INDEX_PACKET : Z := 0.
Definition E57_DATA_PACKET : Z := 1.
Definition E57_EMPTY_PACKET : Z := 2.
Definition E57_DATA_PACKET_MAX : Z := 64 * 1024.

(** ** Fields common to the three packet kinds *)

Definition packetType (p : list byte) : Z := byteAt p 0.
Definition packetLogicalLengthMinus1 (p : list byte) : Z := u16At p 2.

(** [unsigned packetLength = packetLogicalLengthMinus1+1;] *)
Definition packetLength (p : list byte) : Z :=
  u32 (packetLogicalLengthMinus1 p + 1).

(** ** DataPacketHeader and DataPacket *)

Definition sizeof_DataPacketHeader : Z := 6.

Definition bytestreamCount (p : list byte) : Z := u16At p 4.

(** [bsbLength[i]], the i-th entry of the length table at [payload]. *)
Definition bsbLength (p : list byte) (i : Z) : Z :=
  u16At p (sizeof_DataPacketHeader + 2 * i).

Definition DataPacketHeader_verify (p : list byte) (bufferLength : Z)
  : result unit :=
  check (negb (packetType p =? E57_DATA_PACKET)) BadFormat $
  check (packetLength p <? sizeof_DataPacketHeader) BadFormat $
  check (negb (packetLength p mod 4 =? 0)) BadFormat $
  check ((0 <? bufferLength) && (bufferLength <? packetLength p)) BadFormat $
  check (bytestreamCount p =? 0) BadFormat $
  check (packetLength p <?
           usize (sizeof_DataPacketHeader + 2 * bytestreamCount p)) BadFormat $
  Ok tt.

(** [for (i=0; i < n; i++) total += bsbLength[i];] on an [unsigned] total. *)
Definition sumStreamLengths (p : list byte) (n : Z) : Z :=
  foldl (fun total i => u32 (total + bsbLength p i)) 0 (seqZ 0 n).

(** The padding loop: the first nonzero byte in [needed, packetLength)
    throws. *)
Definition paddingIsZero (p : list byte) (from to : Z) : bool :=
  forallb (fun i => byteAt p i =? 0) (seqZ from (to - from)).

Definition DataPacket_needed (p : list byte) : Z :=
  u32 (usize (sizeof_DataPacketHeader + 2 * bytestreamCount p
              + sumStreamLengths p (bytestreamCount p))).

Definition DataPacket_verify (p : list byte) (bufferLength : Z)
  : result unit :=
  match DataPacketHeader_verify p bufferLength with
  | Throw e => Throw e
  | Ok _ =>
      let needed := DataPacket_needed p in
      check ((packetLength p <? needed) || (u32 (needed + 3) <? packetLength p))
        BadFormat $
      check (negb (paddingIsZero p needed (packetLength p))) BadFormat $
      Ok tt
  end.

(** [getBytestream] returns a pointer into the packet and, through
    [byteCount], the length of the stream: here the offset of the pointer
    from the start of the packet, and the length. *)
Definition DataPacket_getBytestream (p : list byte) (bytestreamNumber : Z)
  : result (Z * Z) :=
  check (negb (packetType p =? E57_DATA_PACKET)) BadFormat $
  check (bytestreamCount p <=? bytestreamNumber) InternalError $
  let totalPreceeding := sumStreamLengths p bytestreamNumber in
  let byteCount := bsbLength p bytestreamNumber in
  check (u32 (packetLogicalLengthMinus1 p + 1) <?
           usize (sizeof_DataPacketHeader + 2 * bytestreamCount p
                  + totalPreceeding + byteCount)) InternalError $
  Ok (sizeof_DataPacketHeader + 2 * bytestreamCount p + totalPreceeding,
      byteCount).

(** A data packet laid out from its fields: header, length table, the
    streams, and padding. *)
Definition mkDataPacket (lengthMinus1 : Z) (lengths : list Z)
    (streams padding : list byte) : list byte :=
  [b8 E57_DATA_PACKET; x00] ++ le16 lengthMinus1
    ++ le16 (Z.of_nat (length lengths))
    ++ mjoin (le16 <$> lengths) ++ streams ++ padding.

(** ** EmptyPacketHeader *)

Definition sizeof_EmptyPacketHeader : Z := 4.

Definition EmptyPacketHeader_verify (p : list byte) (bufferLength : Z)
  : result unit :=
  check (negb (packetType p =? E57_EMPTY_PACKET)) BadFormat $
  check (packetLength p <? sizeof_EmptyPacketHeader) BadFormat $
  check (negb (packetLength p mod 4 =? 0)) BadFormat $
  check ((0 <? bufferLength) && (bufferLength <? packetLength p)) BadFormat $
  Ok tt.

(** ** IndexPacket *)

Definition MAX_ENTRIES : Z := 2048.

(** [sizeof(IndexPacket)]: the struct is the whole packet, a 16-byte
    header and [MAX_ENTRIES] entries of 16 bytes (the constructor checks
    this very number). *)
Definition sizeof_IndexPacket : Z := 16 + 16 * MAX_ENTRIES.

Definition entryCount (p : list byte) : Z := u16At p 4.
Definition indexLevel (p : list byte) : Z := byteAt p 6.
Definition sizeof_reserved1 : Z := 9.
Definition reserved1 (p : list byte) (i : Z) : Z := byteAt p (7 + i).
Definition chunkRecordNumber (p : list byte) (i : Z) : Z :=
  u64At p (16 + 16 * i).
Definition chunkPhysicalOffset (p : list byte) (i : Z) : Z :=
  u64At p (16 + 16 * i + 8).

Section BuildFlags.

(** [#ifdef E57_MAX_DEBUG]: a compile-time switch of the library. *)
Variable E57_MAX_DEBUG : bool.

(** One round of the loop over the entries: [true] when none of its four
    checks throws. *)
Definition entryInOrder (p : list byte) (totalRecordCount fileSize i : Z)
  : bool :=
  negb ((0 <? totalRecordCount)
          && (totalRecordCount <=? chunkRecordNumber p i))
  && negb ((0 <? i)
             && (chunkRecordNumber p i <=? chunkRecordNumber p (i - 1)))
  && negb ((0 <? fileSize) && (fileSize <=? chunkPhysicalOffset p i))
  && negb ((0 <? i)
             && (chunkPhysicalOffset p i <=? chunkPhysicalOffset p (i - 1))).

Definition IndexPacket_verify (p : list byte)
    (bufferLength totalRecordCount fileSize : Z) : result unit :=
  check (negb (packetType p =? E57_INDEX_PACKET)) BadFormat $
  check (packetLength p <? sizeof_IndexPacket) BadFormat $
  check (negb (packetLength p mod 4 =? 0)) BadFormat $
  check (entryCount p =? 0) BadFormat $
  check (MAX_ENTRIES <? entryCount p) BadFormat $
  check (5 <? indexLevel p) BadFormat $
  check ((0 <? indexLevel p) && (entryCount p <? 2)) BadFormat $
  check (negb (forallb (fun i => reserved1 p i =? 0)
                 (seqZ 0 sizeof_reserved1))) BadFormat $
  check ((0 <? bufferLength) && (bufferLength <? packetLength p))
    BadFormat $
  let neededLength := u32 (16 + 8 * entryCount p) in
  check (packetLength p <? neededLength) BadFormat $
  if E57_MAX_DEBUG then
    check (negb (paddingIsZero p neededLength (packetLength p)))
      BadFormat $
    check (negb (forallb (entryInOrder p totalRecordCount fileSize)
                   (seqZ 0 (entryCount p)))) BadFormat $
    Ok tt
  else Ok tt.

(** ** The checked file *)

(** Modelled from the spec: the checksummed-file collaborator
    ([CheckedFile.h] is not among the sources).  The cache needs
    [seek(logicalOffset)] and [read(buffer, n)] from it, both in the
    logical address space.  A file is its logical contents and a
    position. *)
Record CheckedFile : Type := {
  contents : list byte;
  position : Z
}.

(** Modelled from the spec: [seek(logicalOffset)] of the checksummed-file
    collaborator. *)
Definition CheckedFile_seek (f : CheckedFile) (offset : Z) : CheckedFile :=
  {| contents := contents f; position := offset |}.

(** Modelled from the spec: [read(buffer, n)] of the checksummed-file
    collaborator.  It delivers the [n] bytes at the position and advances
    by [n]; a read that runs past the end of the contents fails and
    delivers nothing. *)
Definition CheckedFile_read (f : CheckedFile) (n : Z)
  : CheckedFile * result (list byte) :=
  if position f + n <=? Z.of_nat (length (contents f)) then
    ({| contents := contents f; position := position f + n |},
     Ok (take (Z.to_nat n) (drop (Z.to_nat (position f)) (contents f))))
  else (f, Throw (E57_EXCEPTION2 E57_ERROR_READ_FAILED)).

(** ** PacketReadCache *)

Record CacheEntry : Type := {
  logicalOffset_ : Z;
  buffer_ : list byte;
  lastUsed_ : Z
}.

Record PacketReadCache : Type := {
  lockCount_ : Z;
  useCount_ : Z;
  cFile_ : CheckedFile;
  entries_ : list CacheEntry
}.

Record PacketLock : Type := { cacheIndex_ : nat }.

Definition set_cFile (c : PacketReadCache) (f : CheckedFile)
  : PacketReadCache :=
  {| lockCount_ := lockCount_ c; useCount_ := useCount_ c;
     cFile_ := f; entries_ := entries_ c |}.

Definition set_entries (c : PacketReadCache) (es : list CacheEntry)
  : PacketReadCache :=
  {| lockCount_ := lockCount_ c; useCount_ := useCount_ c;
     cFile_ := cFile_ c; entries_ := es |}.

Definition set_lockCount (c : PacketReadCache) (n : Z) : PacketReadCache :=
  {| lockCount_ := n; useCount_ := useCount_ c;
     cFile_ := cFile_ c; entries_ := entries_ c |}.

Definition set_useCount (c : PacketReadCache) (n : Z) : PacketReadCache :=
  {| lockCount_ := lockCount_ c; useCount_ := n;
     cFile_ := cFile_ c; entries_ := entries_ c |}.

(** The constructor.  [new char[E57_DATA_PACKET_MAX]] leaves the bytes of
    a buffer indeterminate: [fresh i] is what the i-th allocation holds. *)
Definition PacketReadCache_new (cFile : CheckedFile) (packetCount : nat)
    (fresh : nat -> list byte) : result PacketReadCache :=
  check (Z.of_nat packetCount =? 0) InternalError $
  Ok {| lockCount_ := 0; useCount_ := 0; cFile_ := cFile;
        entries_ :=
          (fun i => {| logicalOffset_ := 0; buffer_ := fresh i;
                       lastUsed_ := 0 |}) <$> seq 0 packetCount |}.

(** [read(buffer, n)] stores what was read at the start of the buffer. *)
Definition store (buffer bytes : list byte) : list byte :=
  bytes ++ drop (length bytes) buffer.

(** The guard before the full read. *)
Definition packetLength_too_long (packetLength : Z) : bool :=
  E57_DATA_PACKET_MAX <? packetLength.

(** The [switch (header.packetType)] of [readPacket]. *)
Definition verifyPacket (type : Z) (buffer : list byte) (packetLength : Z)
  : result unit :=
  if type =? E57_DATA_PACKET then DataPacket_verify buffer packetLength
  else if type =? E57_INDEX_PACKET then
    IndexPacket_verify buffer packetLength 0 0
  else if type =? E57_EMPTY_PACKET then
    EmptyPacketHeader_verify buffer packetLength
  else Throw InternalError.

(** [readPacket].  The header is read into a local
    [EmptyPacketHeader]; the whole packet is then read into the buffer of
    the slot, and only afterwards verified.  [logicalOffset_] and
    [lastUsed_] of the slot are assigned after the [switch]. *)
Definition readPacket (c : PacketReadCache) (oldestEntry : nat)
    (packetLogicalOffset : Z) : PacketReadCache * result unit :=
  let f1 := CheckedFile_seek (cFile_ c) packetLogicalOffset in
  match CheckedFile_read f1 sizeof_EmptyPacketHeader with
  | (f2, Throw e) => (set_cFile c f2, Throw e)
  | (f2, Ok header) =>
      let packetLength := packetLength header in
      if packetLength_too_long packetLength
      then (set_cFile c f2, Throw BadFormat)
      else
        let f3 := CheckedFile_seek f2 packetLogicalOffset in
        match entries_ c !! oldestEntry with
        | None => (set_cFile c f3, Throw std_out_of_range)
        | Some entry =>
            match CheckedFile_read f3 packetLength with
            | (f4, Throw e) => (set_cFile c f4, Throw e)
            | (f4, Ok bytes) =>
                let buffer := store (buffer_ entry) bytes in
                let filled :=
                  {| logicalOffset_ := logicalOffset_ entry;
                     buffer_ := buffer;
                     lastUsed_ := lastUsed_ entry |} in
                let c4 :=
                  set_entries (set_cFile c f4)
                    (<[oldestEntry := filled]> (entries_ c)) in
                match verifyPacket (packetType header) buffer packetLength
                with
                | Throw e => (c4, Throw e)
                | Ok _ =>
                    let useCount := u32 (useCount_ c + 1) in
                    (set_useCount
                       (set_entries c4
                          (<[oldestEntry :=
                               {| logicalOffset_ := packetLogicalOffset;
                                  buffer_ := buffer;
                                  lastUsed_ := useCount |}]>
                             (entries_ c)))
                       useCount,
                     Ok tt)
                end
            end
        end
  end.

(** The linear scan for a slot holding the offset. *)
Fixpoint findMatch (packetLogicalOffset : Z) (es : list CacheEntry)
    (i : nat) : option nat :=
  match es with
  | [] => None
  | e :: es' =>
      if packetLogicalOffset =? logicalOffset_ e then Some i
      else findMatch packetLogicalOffset es' (S i)
  end.

(** The scan for the least recently used slot, from slot [i] on. *)
Fixpoint scanOldest (es : list CacheEntry) (i : nat)
    (oldestEntry : nat) (oldestUsed : Z) : nat :=
  match es with
  | [] => oldestEntry
  | e :: es' =>
      if lastUsed_ e <? oldestUsed
      then scanOldest es' (S i) i (lastUsed_ e)
      else scanOldest es' (S i) oldestEntry oldestUsed
  end.

(** [oldestUsed = entries_.at(0).lastUsed_] throws on an empty vector. *)
Definition findOldest (es : list CacheEntry) : result nat :=
  match es !! 0%nat with
  | None => Throw std_out_of_range
  | Some e0 => Ok (scanOldest es 0 0 (lastUsed_ e0))
  end.

(** The part of [lock] after the slot to replace has been chosen.  The
    buffer published through [pkt] is the slot's own buffer.  The slot is
    read with [entries_[oldestEntry]], which does not check the index;
    [readPacket] has returned, so its [entries_.at(oldestEntry)] has found
    the slot, and the [None] case below is never taken. *)
Definition lock_fill (c : PacketReadCache) (oldestEntry : nat)
    (packetLogicalOffset : Z)
  : PacketReadCache * result (PacketLock * list byte) :=
  match readPacket c oldestEntry packetLogicalOffset with
  | (c', Throw e) => (c', Throw e)
  | (c', Ok _) =>
      match entries_ c' !! oldestEntry with
      | None => (c', Throw std_out_of_range)
      | Some entry =>
          (set_lockCount c' (u32 (lockCount_ c' + 1)),
           Ok ({| cacheIndex_ := oldestEntry |}, buffer_ entry))
      end
  end.

(** [lock].  In the scan for a match [i] stays below [entries_.size()],
    so the unchecked [entries_[i]] finds its slot and the [None] case of
    the first [match] on it is never taken. *)
Definition lock (c : PacketReadCache) (packetLogicalOffset : Z)
  : PacketReadCache * result (PacketLock * list byte) :=
  if 0 <? lockCount_ c then (c, Throw InternalError)
  else if packetLogicalOffset =? 0 then (c, Throw InternalError)
  else
    match findMatch packetLogicalOffset (entries_ c) 0 with
    | Some i =>
        match entries_ c !! i with
        | None => (c, Throw std_out_of_range)
        | Some entry =>
            let useCount := u32 (useCount_ c + 1) in
            (set_lockCount
               (set_useCount
                  (set_entries c
                     (<[i := {| logicalOffset_ := logicalOffset_ entry;
                                buffer_ := buffer_ entry;
                                lastUsed_ := useCount |}]> (entries_ c)))
                  useCount)
               (u32 (lockCount_ c + 1)),
             Ok ({| cacheIndex_ := i |}, buffer_ entry))
        end
    | None =>
        match findOldest (entries_ c) with
        | Throw e => (c, Throw e)
        | Ok oldestEntry => lock_fill c oldestEntry packetLogicalOffset
        end
    end.

(** [unlock] does not use its argument. *)
Definition unlock (c : PacketReadCache) (lockedEntry : nat)
  : PacketReadCache * result unit :=
  if negb (lockCount_ c =? 1) then (c, Throw InternalError)
  else (set_lockCount c (u32 (lockCount_ c - 1)), Ok tt).

(** ** PacketLock *)

(** [try { body } catch (...) { handler }] *)
Definition try_catch_all {S A} (body : S * result A)
    (handler : exn -> result A) : S * result A :=
  match body with
  | (s, Ok a) => (s, Ok a)
  | (s, Throw e) => (s, handler e)
  end.

(** The destructor of the guard. *)
Definition PacketLock_destroy (l : PacketLock) (cache_ : PacketReadCache)
  : PacketReadCache * result unit :=
  try_catch_all (unlock cache_ (cacheIndex_ l)) (fun _ => Ok tt).

End BuildFlags.

(** An index packet laid out from its fields. *)
Definition mkIndexPacket (lengthMinus1 count level : Z)
    (reserved : list byte) (entries : list (Z * Z)) : list byte :=
  [b8 E57_INDEX_PACKET; x00] ++ le16 lengthMinus1 ++ le16 count
    ++ [b8 level] ++ reserved
    ++ mjoin ((fun e => le64 e.1 ++ le64 e.2) <$> entries).

(** The sum of the first [n] entries of the length table, as a number. *)
Definition lengthSum (p : list byte) (n : Z) : Z :=
  foldr Z.add 0 (bsbLength p <$> seqZ 0 n).

(** What [DataPacketHeader::verify] accepts. *)
Record DataPacketHeader_ok (p : list byte) (bufferLength : Z) : Prop := {
  hdr_type : packetType p = E57_DATA_PACKET;
  hdr_length_min : sizeof_DataPacketHeader ≤ packetLength p;
  hdr_length_mod4 : packetLength p mod 4 = 0;
  hdr_length_buffer : bufferLength ≤ 0 ∨ packetLength p ≤ bufferLength;
  hdr_count_pos : 0 < bytestreamCount p;
  hdr_table_fits :
    sizeof_DataPacketHeader + 2 * bytestreamCount p ≤ packetLength p
}.

(** The length a data packet needs: header, length table and streams. *)
Definition neededLength (p : list byte) : Z :=
  sizeof_DataPacketHeader + 2 * bytestreamCount p
  + lengthSum p (bytestreamCount p).

(** The data packet of the scenario: two streams of 10 and 20 bytes. *)
Definition streams30 : list byte := replicate 10 x01 ++ replicate 20 x02.
Definition dataPacket40 : list byte := mkDataPacket 39 [10; 20] streams30 [].
Definition dataPacket43 : list byte :=
  mkDataPacket 42 [10; 20] streams30 (zeros 3).
Definition dataPacket44 : list byte :=
  mkDataPacket 43 [10; 20] streams30 (zeros 4).

(** A data packet whose length table promises more than the packet holds:
    16 bytes declared, one stream of 100 bytes. *)
Definition dataPacketShort : list byte :=
  mkDataPacket 15 [100] (replicate 10 x01) [].

(** The index packet of the scenario: three entries at level 0 in 64
    bytes, and the same with the second and third entries exchanged. *)
Definition indexPacket64 : list byte :=
  mkIndexPacket 63 3 0 (zeros 9) [(0, 1024); (5, 2048); (9, 4096)].
Definition indexPacket64_swapped : list byte :=
  mkIndexPacket 63 3 0 (zeros 9) [(0, 1024); (9, 4096); (5, 2048)].

(** ** Notions used to state the properties of the cache *)

(** Two buffers hold the same first [n] bytes. *)
Definition agree (n : Z) (b1 b2 : list byte) : Prop :=
  ∀ i, 0 ≤ i < n → byteAt b1 i = byteAt b2 i.

(** What a read of [n] bytes at [offset] delivers. *)
Definition bytesAt (contents : list byte) (offset n : Z)
  : option (list byte) :=
  if offset + n <=? Z.of_nat (length contents)
  then Some (take (Z.to_nat n) (drop (Z.to_nat offset) contents))
  else None.

(** The file holds, at [offset], a whole packet that its [verify]
    accepts. *)
Definition validPacketAt (E57_MAX_DEBUG : bool) (f : CheckedFile)
    (offset : Z) : bool :=
  (0 <=? offset)
  && match bytesAt (contents f) offset sizeof_EmptyPacketHeader with
     | None => false
     | Some header =>
         match bytesAt (contents f) offset (packetLength header) with
         | None => false
         | Some bytes =>
             match verifyPacket E57_MAX_DEBUG (packetType header) bytes
                     (packetLength header) with
             | Ok _ => true
             | Throw _ => false
             end
         end
     end.

(** Slot [i] is the first one among those with the least stamp. *)
Definition firstMinimum (es : list CacheEntry) (i : nat) : Prop :=
  ∃ e, es !! i = Some e
       ∧ (∀ j e', es !! j = Some e' → lastUsed_ e ≤ lastUsed_ e')
       ∧ (∀ j e', (j < i)%nat → es !! j = Some e' →
                  lastUsed_ e < lastUsed_ e').

(** A caller that locks a packet and lets the guard go out of scope. *)
Definition lockRelease (E57_MAX_DEBUG : bool) (c : PacketReadCache)
    (offset : Z) : option PacketReadCache :=
  match lock E57_MAX_DEBUG c offset with
  | (c', Ok (guard, _)) => Some (PacketLock_destroy guard c').1
  | (_, Throw _) => None
  end.

Fixpoint lockReleaseAll (E57_MAX_DEBUG : bool) (c : PacketReadCache)
    (offsets : list Z) : option PacketReadCache :=
  match offsets with
  | [] => Some c
  | o :: offsets' =>
      match lockRelease E57_MAX_DEBUG c o with
      | Some c' => lockReleaseAll E57_MAX_DEBUG c' offsets'
      | None => None
      end
  end.

(** After [k] of the offsets have been locked and released on a new
    cache of [N] slots: slot [j < k] holds the j-th offset, stamped
    [j + 1]; the other slots are still unused. *)
Definition filledUpTo (f : CheckedFile) (N : nat) (offsets : list Z)
    (k : nat) (c : PacketReadCache) : Prop :=
  lockCount_ c = 0
  ∧ useCount_ c = Z.of_nat k
  ∧ contents (cFile_ c) = contents f
  ∧ length (entries_ c) = N
  ∧ ∀ j e, entries_ c !! j = Some e →
      if decide (j < k)%nat
      then offsets !! j = Some (logicalOffset_ e)
           ∧ lastUsed_ e = Z.of_nat j + 1
      else logicalOffset_ e = 0 ∧ lastUsed_ e = 0.

(** ** A file and caches to run the code on *)

Definition emptyPacket4 : list byte := [b8 E57_EMPTY_PACKET; x00] ++ le16 3.

(** A data packet that [verify] rejects: it has no bytestream. *)
Definition badDataPacket8 : list byte :=
  [b8 E57_DATA_PACKET; x00] ++ le16 7 ++ le16 0 ++ [x00; x00].

(** Offset 4: an empty packet; 8: the rejected data packet; 16: the data
    packet of 40 bytes; 56: an empty packet. *)
Definition exampleFile : CheckedFile :=
  {| contents :=
       zeros 4 ++ emptyPacket4 ++ badDataPacket8 ++ dataPacket40
         ++ emptyPacket4;
     position := 0 |}.

Definition zeroBuffer : list byte := zeros (Z.to_nat E57_DATA_PACKET_MAX).

Definition unusedEntry : CacheEntry :=
  {| logicalOffset_ := 0; buffer_ := zeroBuffer; lastUsed_ := 0 |}.

Definition oneSlotCache : PacketReadCache :=
  {| lockCount_ := 0; useCount_ := 0; cFile_ := exampleFile;
     entries_ := [unusedEntry] |}.

Definition twoSlotCache : PacketReadCache :=
  {| lockCount_ := 0; useCount_ := 0; cFile_ := exampleFile;
     entries_ := [unusedEntry; unusedEntry] |}.

(** What a caller sees of a [lock]: the slot of the guard and the first
    bytes of the published buffer. *)
Definition seen (n : nat) (r : result (PacketLock * list byte))
  : result (nat * list byte) :=
  match r with
  | Ok (guard, pkt) => Ok (cacheIndex_ guard, take n pkt)
  | Throw e => Throw e
  end.

(** ** The rest of the data packet interface *)

(** [getBytestreamBufferLength]: calls [getBytestream] and returns the
    byte count. *)
Definition DataPacket_getBytestreamBufferLength (p : list byte)
    (bytestreamNumber : Z) : result Z :=
  match DataPacket_getBytestream p bytestreamNumber with
  | Ok (_, byteCount) => Ok byteCount
  | Throw e => Throw e
  end.

(** Index packets of full size, 32784 bytes: one with three entries, and
    one with a single entry whose offset is zero. *)
Definition indexPacketFull : list byte :=
  mkIndexPacket 32783 3 0 (zeros 9) [(0, 1024); (5, 2048); (9, 4096)]
    ++ zeros (Z.to_nat (sizeof_IndexPacket - 64)).
Definition indexPacketOneEntry : list byte :=
  mkIndexPacket 32783 1 0 (zeros 9) [(7, 0)]
    ++ zeros (Z.to_nat (sizeof_IndexPacket - 32)).

(** ** Sequences of operations on a cache *)

(** What a user of the cache can do: ask for a packet, or let a guard go
    out of scope. *)
Inductive CacheOp : Type :=
  | OpLock (packetLogicalOffset : Z)
  | OpRelease (guard : PacketLock).

(** One operation; an exception leaves the cache as the throwing call left
    it. *)
Definition runOp (E57_MAX_DEBUG : bool) (c : PacketReadCache) (op : CacheOp)
  : PacketReadCache :=
  match op with
  | OpLock offset => (lock E57_MAX_DEBUG c offset).1
  | OpRelease guard => (PacketLock_destroy guard c).1
  end.

Definition runOps (E57_MAX_DEBUG : bool) (c : PacketReadCache)
    (ops : list CacheOp) : PacketReadCache :=
  foldl (runOp E57_MAX_DEBUG) c ops.

(** The shape of a cache of [N] slots: at most one lock, [N] slots, every
    buffer of [E57_DATA_PACKET_MAX] bytes. *)
Definition cacheOk (N : nat) (c : PacketReadCache) : Prop :=
  0 ≤ lockCount_ c ≤ 1
  ∧ length (entries_ c) = N
  ∧ ∀ j e, entries_ c !! j = Some e →
           length (buffer_ e) = Z.to_nat E57_DATA_PACKET_MAX.

(** No nonzero offset is held by two slots. *)
Definition distinctOffsets (offsets : list Z) : Prop :=
  ∀ i j o, offsets !! i = Some o → offsets !! j = Some o → o ≠ 0 → i = j.

(** A packet of a type that is none of the three. *)
Definition unknownPacket4 : list byte := [x07; x00] ++ le16 3.

Definition unknownFile : CheckedFile :=
  {| contents := zeros 4 ++ unknownPacket4; position := 0 |}.

(** * Properties *)

(** ** Bytes and machine integers *)

Lemma byteAt_range (p : list byte) (i : Z) : 0 ≤ byteAt p i < 256.
Proof.
  unfold byteAt. destruct (p !! Z.to_nat i) as [b|]; [|lia].
  pose proof (Byte.to_N_bounded b). lia.
Qed.

Lemma u16At_range (p : list byte) (i : Z) : 0 ≤ u16At p i < 65536.
Proof.
  unfold u16At.
  pose proof (byteAt_range p i). pose proof (byteAt_range p (i + 1)). lia.
Qed.

Lemma u32_small (z : Z) : 0 ≤ z < 2 ^ 32 → u32 z = z.
Proof. intros. unfold u32. by apply Z.mod_small. Qed.

Lemma usize_small (z : Z) : 0 ≤ z < 2 ^ 64 → usize z = z.
Proof. intros. unfold usize. by apply Z.mod_small. Qed.

Lemma packetLength_eq (p : list byte) :
  packetLength p = packetLogicalLengthMinus1 p + 1.
Proof.
  unfold packetLength, packetLogicalLengthMinus1.
  pose proof (u16At_range p 2). apply u32_small. lia.
Qed.

Lemma packetLength_range (p : list byte) : 1 ≤ packetLength p ≤ 65536.
Proof.
  rewrite packetLength_eq. unfold packetLogicalLengthMinus1.
  pose proof (u16At_range p 2). lia.
Qed.

(** ** Reading results of [check] chains *)

Lemma check_Ok {A} (b : bool) (e : exn) (k : result A) (a : A) :
  check b e k = Ok a ↔ b = false ∧ k = Ok a.
Proof. destruct b; simpl; intuition congruence. Qed.

Lemma check_false {A} (b : bool) (e : exn) (k : result A) :
  b = false → check b e k = k.
Proof. by intros ->. Qed.

Lemma check_true {A} (b : bool) (e : exn) (k : result A) :
  b = true → check b e k = Throw e.
Proof. by intros ->. Qed.

(** ** The length table *)

Lemma foldr_add_base (l : list Z) (b : Z) :
  foldr Z.add b l = foldr Z.add 0 l + b.
Proof. induction l as [|x l IH]; simpl; lia. Qed.

Lemma lengthSum_S (p : list byte) (k : nat) :
  lengthSum p (Z.of_nat (S k))
  = lengthSum p (Z.of_nat k) + bsbLength p (Z.of_nat k).
Proof.
  unfold lengthSum. rewrite seqZ_S, fmap_app, foldr_app, foldr_add_base.
  simpl. rewrite Z.add_0_l. lia.
Qed.

Lemma lengthSum_range (p : list byte) (k : nat) :
  0 ≤ lengthSum p (Z.of_nat k) ≤ 65535 * Z.of_nat k.
Proof.
  induction k as [|k IH]; [done|].
  rewrite lengthSum_S. unfold bsbLength.
  pose proof (u16At_range p (sizeof_DataPacketHeader + 2 * Z.of_nat k)). lia.
Qed.

Lemma lengthSum_mono (p : list byte) (n m : Z) :
  0 ≤ n ≤ m → lengthSum p n ≤ lengthSum p m.
Proof.
  intros [Hn Hm].
  replace m with (Z.of_nat (Z.to_nat n + Z.to_nat (m - n))) by lia.
  replace n with (Z.of_nat (Z.to_nat n)) at 1 by lia.
  generalize (Z.to_nat (m - n)). intros d.
  induction d as [|d IH]; [by rewrite Nat.add_0_r|].
  rewrite Nat.add_succ_r, lengthSum_S. unfold bsbLength.
  pose proof (u16At_range p
    (sizeof_DataPacketHeader + 2 * Z.of_nat (Z.to_nat n + d))). lia.
Qed.

(** The [unsigned] accumulator of the summing loops does not wrap as long
    as the loop makes at most 65537 rounds. *)
Lemma sumStreamLengths_exact (p : list byte) (n : Z) :
  0 ≤ n ≤ 65537 → sumStreamLengths p n = lengthSum p n.
Proof.
  intros Hn. replace n with (Z.of_nat (Z.to_nat n)) by lia.
  assert (Hk : Z.of_nat (Z.to_nat n) ≤ 65537) by lia.
  revert Hk. generalize (Z.to_nat n). clear. intros k.
  induction k as [|k IH]; intros Hk; [done|].
  rewrite lengthSum_S. unfold sumStreamLengths in *.
  rewrite seqZ_S, foldl_app. simpl. rewrite IH by lia.
  apply u32_small.
  pose proof (lengthSum_range p k). unfold bsbLength.
  pose proof (u16At_range p (sizeof_DataPacketHeader + 2 * (0 + Z.of_nat k))).
  rewrite Z.add_0_l in *. lia.
Qed.

Lemma paddingIsZero_spec (p : list byte) (from to : Z) :
  paddingIsZero p from to = true ↔ ∀ i, from ≤ i < to → byteAt p i = 0.
Proof.
  unfold paddingIsZero. rewrite forallb_forall.
  setoid_rewrite <- list_elem_of_In. setoid_rewrite elem_of_seqZ.
  setoid_rewrite Z.eqb_eq. split; intros H i Hi; apply H; lia.
Qed.

(** ** What a verified data packet satisfies *)

Lemma DataPacketHeader_verify_Ok (p : list byte) (bufferLength : Z) :
  DataPacketHeader_verify p bufferLength = Ok tt
  ↔ DataPacketHeader_ok p bufferLength.
Proof.
  unfold DataPacketHeader_verify, bytestreamCount.
  pose proof (u16At_range p 4) as Hc.
  rewrite (usize_small (_ + 2 * u16At p 4))
    by (unfold sizeof_DataPacketHeader; lia).
  rewrite !check_Ok. split.
  - intros (H1 & H2 & H3 & H4 & H5 & H6 & _).
    apply negb_false_iff, Z.eqb_eq in H1. apply negb_false_iff, Z.eqb_eq in H3.
    apply andb_false_iff in H4.
    split; unfold bytestreamCount; lia.
  - intros [H1 H2 H3 H4 H5 H6]. unfold bytestreamCount in *.
    repeat split; rewrite ?negb_false_iff, ?andb_false_iff; lia.
Qed.

Lemma DataPacket_needed_exact (p : list byte) (bufferLength : Z) :
  DataPacketHeader_ok p bufferLength →
  DataPacket_needed p
  = sizeof_DataPacketHeader + 2 * bytestreamCount p
    + lengthSum p (bytestreamCount p)
  ∧ DataPacket_needed p < 2 ^ 31.
Proof.
  intros [_ _ _ _ Hpos Hfit]. unfold DataPacket_needed.
  pose proof (packetLength_range p) as Hlen.
  unfold sizeof_DataPacketHeader in *.
  rewrite sumStreamLengths_exact by lia.
  pose proof (lengthSum_range p (Z.to_nat (bytestreamCount p))) as Hs.
  rewrite Z2Nat.id in Hs by lia.
  rewrite usize_small, u32_small by lia. lia.
Qed.

Lemma DataPacket_verify_Ok (p : list byte) (bufferLength : Z) :
  DataPacket_verify p bufferLength = Ok tt
  ↔ DataPacketHeader_ok p bufferLength
    ∧ neededLength p ≤ packetLength p ≤ neededLength p + 3
    ∧ ∀ i, neededLength p ≤ i < packetLength p → byteAt p i = 0.
Proof.
  unfold DataPacket_verify.
  destruct (DataPacketHeader_verify p bufferLength) as [[]|e] eqn:Hh.
  - apply DataPacketHeader_verify_Ok in Hh.
    destruct (DataPacket_needed_exact p bufferLength Hh) as [Hn Hlt].
    fold (neededLength p) in Hn. rewrite Hn in *.
    pose proof (packetLength_range p) as Hlen.
    assert (0 ≤ neededLength p).
    { unfold neededLength, sizeof_DataPacketHeader.
      pose proof (lengthSum_range p (Z.to_nat (bytestreamCount p))) as Hs.
      destruct Hh. rewrite Z2Nat.id in Hs by lia. lia. }
    rewrite (u32_small (_ + 3)) by lia.
    rewrite !check_Ok, negb_false_iff, orb_false_iff, paddingIsZero_spec.
    rewrite !Z.ltb_ge.
    split; [intros ((? & ?) & ? & _)|intros (_ & ? & ?)];
      split_and!; done || lia.
  - split; [done|]. intros [Hok _].
    apply DataPacketHeader_verify_Ok in Hok. congruence.
Qed.

(** ** Data packets: the claims *)

(** C5.  When [DataPacket::verify] accepts a packet, the header size plus
    twice [bytestreamCount] plus the sum of the entries of the length
    table is at most the declared logical length
    ([packetLogicalLengthMinus1 + 1]) and at least that length minus 3, and
    every byte from that needed length up to the declared length is
    zero. *)
Theorem DataPacket_verify_accounts_for_length
    (p : list byte) (bufferLength : Z) :
  DataPacket_verify p bufferLength = Ok tt →
  sizeof_DataPacketHeader + 2 * bytestreamCount p
    + lengthSum p (bytestreamCount p) ≤ packetLogicalLengthMinus1 p + 1
  ∧ packetLogicalLengthMinus1 p + 1 - 3
    ≤ sizeof_DataPacketHeader + 2 * bytestreamCount p
      + lengthSum p (bytestreamCount p)
  ∧ ∀ i,
      sizeof_DataPacketHeader + 2 * bytestreamCount p
        + lengthSum p (bytestreamCount p) ≤ i
      < packetLogicalLengthMinus1 p + 1 →
      byteAt p i = 0.
Proof.
  intros (_ & Hlen & Hpad)%DataPacket_verify_Ok.
  rewrite packetLength_eq in *. unfold neededLength in *.
  split_and!; [lia|lia|done].
Qed.

Lemma DataPacket_verify_accounts_for_length_witness :
  DataPacket_verify dataPacket40 0 = Ok tt
  ∧ sizeof_DataPacketHeader + 2 * bytestreamCount dataPacket40
      + lengthSum dataPacket40 (bytestreamCount dataPacket40)
    ≤ packetLogicalLengthMinus1 dataPacket40 + 1.
Proof.
  split; [reflexivity|].
  apply (DataPacket_verify_accounts_for_length dataPacket40 0). reflexivity.
Defined.

(** C8.  On a verified data packet, [getBytestream(n)] throws an internal
    error when [n >= bytestreamCount]; for [n < bytestreamCount] it returns
    the stream that starts at the header size plus twice [bytestreamCount]
    plus the lengths of the streams before it, with the n-th entry of the
    length table as its length, and the stream ends within the declared
    logical length. *)
Theorem getBytestream_of_verified_packet
    (p : list byte) (bufferLength n : Z) :
  DataPacket_verify p bufferLength = Ok tt →
  0 ≤ n < 2 ^ 32 →
  (bytestreamCount p ≤ n →
   DataPacket_getBytestream p n = Throw InternalError)
  ∧ (n < bytestreamCount p →
     DataPacket_getBytestream p n
     = Ok (sizeof_DataPacketHeader + 2 * bytestreamCount p + lengthSum p n,
           bsbLength p n)
     ∧ (sizeof_DataPacketHeader + 2 * bytestreamCount p + lengthSum p n)
       + bsbLength p n ≤ packetLogicalLengthMinus1 p + 1).
Proof.
  intros ([Hty _ _ _ Hpos Hfit] & Hlen & _)%DataPacket_verify_Ok Hn.
  unfold DataPacket_getBytestream. rewrite Hty. simpl negb.
  rewrite check_false by done. split.
  - intros Hge. apply check_true. lia.
  - intros Hlt. rewrite check_false by lia.
    rewrite sumStreamLengths_exact
      by (pose proof (u16At_range p 4); unfold bytestreamCount in *; lia).
    fold (packetLength p).
    assert (Hend : lengthSum p n + bsbLength p n
                   ≤ lengthSum p (bytestreamCount p)).
    { replace n with (Z.of_nat (Z.to_nat n)) by lia.
      rewrite <- lengthSum_S. apply lengthSum_mono. lia. }
    pose proof (lengthSum_range p (Z.to_nat n)) as Hs.
    rewrite Z2Nat.id in Hs by lia.
    pose proof (u16At_range p (sizeof_DataPacketHeader + 2 * n)) as Hb.
    fold (bsbLength p n) in Hb.
    pose proof (packetLength_range p).
    unfold neededLength, sizeof_DataPacketHeader in *.
    rewrite usize_small by lia.
    rewrite check_false by lia.
    rewrite <- packetLength_eq. split; [done|lia].
Qed.

Lemma getBytestream_of_verified_packet_witness :
  DataPacket_getBytestream dataPacket40 1 = Ok (20, 20)
  ∧ DataPacket_getBytestream dataPacket40 2 = Throw InternalError.
Proof.
  assert (Hv : DataPacket_verify dataPacket40 0 = Ok tt) by reflexivity.
  split.
  - apply (getBytestream_of_verified_packet dataPacket40 0 1 Hv); [lia|].
    vm_compute. reflexivity.
  - apply (getBytestream_of_verified_packet dataPacket40 0 2 Hv); [lia|].
    vm_compute. discriminate.
Defined.

Lemma DataPacketHeader_verify_Throw (p : list byte) (bufferLength : Z)
    (e : exn) :
  DataPacketHeader_verify p bufferLength = Throw e → e = BadFormat.
Proof.
  unfold DataPacketHeader_verify, check.
  repeat (case_match; [congruence|]). done.
Qed.

Lemma DataPacket_verify_Throw (p : list byte) (bufferLength : Z) (e : exn) :
  DataPacket_verify p bufferLength = Throw e → e = BadFormat.
Proof.
  unfold DataPacket_verify.
  destruct (DataPacketHeader_verify p bufferLength) eqn:Hh.
  - unfold check. repeat (case_match; [congruence|]). done.
  - intros [= <-]. by eapply DataPacketHeader_verify_Throw.
Qed.

Lemma DataPacket_verify_rejects (p : list byte) (bufferLength : Z) :
  DataPacket_verify p bufferLength ≠ Ok tt →
  DataPacket_verify p bufferLength = Throw BadFormat.
Proof.
  destruct (DataPacket_verify p bufferLength) as [[]|e] eqn:Hv; [done|].
  intros _. f_equal. by eapply DataPacket_verify_Throw.
Qed.

(** C3, as the code has it.  A data packet with two streams of 10 and 20
    bytes needs 40 bytes.  Declared with logical length 40 it is accepted;
    declared with length 43 it is rejected, because 43 is not a multiple
    of 4, whatever its padding; declared with length 44 it is rejected,
    because 44 is more than 3 bytes above what is needed. *)
Theorem DataPacket_verify_two_streams (p : list byte) (bufferLength : Z) :
  packetType p = E57_DATA_PACKET →
  bytestreamCount p = 2 →
  bsbLength p 0 = 10 →
  bsbLength p 1 = 20 →
  (packetLogicalLengthMinus1 p + 1 = 40 →
   bufferLength ≤ 0 ∨ 40 ≤ bufferLength →
   DataPacket_verify p bufferLength = Ok tt)
  ∧ (packetLogicalLengthMinus1 p + 1 = 43 →
     DataPacket_verify p bufferLength = Throw BadFormat)
  ∧ (packetLogicalLengthMinus1 p + 1 = 44 →
     DataPacket_verify p bufferLength = Throw BadFormat).
Proof.
  intros Hty Hc H0 H1.
  assert (Hneed : neededLength p = 40).
  { unfold neededLength, lengthSum. rewrite Hc.
    change (seqZ 0 2) with [0; 1]. simpl. rewrite H0, H1. done. }
  split_and!.
  - intros Hlen Hbuf. apply DataPacket_verify_Ok.
    rewrite Hneed, packetLength_eq, Hlen. split_and!; try lia.
    split; rewrite ?packetLength_eq, ?Hlen, ?Hc; done || lia.
  - intros Hlen. apply DataPacket_verify_rejects.
    intros ([_ _ Hmod _ _ _] & _)%DataPacket_verify_Ok.
    rewrite packetLength_eq, Hlen in Hmod. done.
  - intros Hlen. apply DataPacket_verify_rejects.
    intros (_ & Hfit & _)%DataPacket_verify_Ok.
    rewrite packetLength_eq, Hlen, Hneed in Hfit. lia.
Qed.

Lemma DataPacket_verify_two_streams_witness :
  DataPacket_verify dataPacket40 0 = Ok tt
  ∧ DataPacket_verify dataPacket43 0 = Throw BadFormat
  ∧ DataPacket_verify dataPacket44 0 = Throw BadFormat.
Proof.
  split_and!.
  - destruct (DataPacket_verify_two_streams dataPacket40 0) as (H & _ & _);
      [reflexivity..|]. apply H; [reflexivity|left; lia].
  - destruct (DataPacket_verify_two_streams dataPacket43 0) as (_ & H & _);
      [reflexivity..|]. apply H. reflexivity.
  - destruct (DataPacket_verify_two_streams dataPacket44 0) as (_ & _ & H);
      [reflexivity..|]. apply H. reflexivity.
Defined.

(** C3, as the spec has it, fails: the packet declared with logical length
    43 and three zero bytes of padding is rejected. *)
Lemma DataPacket_verify_length_43_rejected :
  packetLogicalLengthMinus1 dataPacket43 + 1 = 43
  ∧ bytestreamCount dataPacket43 = 2
  ∧ bsbLength dataPacket43 0 = 10 ∧ bsbLength dataPacket43 1 = 20
  ∧ (∀ i, 40 ≤ i < 43 → byteAt dataPacket43 i = 0)
  ∧ DataPacket_verify dataPacket43 0 ≠ Ok tt.
Proof.
  split_and!; try reflexivity; [|discriminate].
  intros i Hi.
  assert (i = 40 ∨ i = 41 ∨ i = 42) as [->|[->| ->]] by lia; reflexivity.
Qed.

(** C4.  When the end of the n-th stream of a data packet (header size,
    plus twice [bytestreamCount], plus the lengths of the streams before
    it, plus its own length) lies beyond the declared logical length,
    [getBytestream(n)] fails with the bytestream-out-of-bounds error,
    which the code raises as [E57_ERROR_INTERNAL]: an internal consistency
    failure, distinct from [E57_ERROR_BAD_CV_PACKET], the error of a
    malformed packet on disk. *)
Theorem getBytestream_out_of_bounds (p : list byte) (n : Z) :
  packetType p = E57_DATA_PACKET →
  0 ≤ n < bytestreamCount p →
  packetLogicalLengthMinus1 p + 1
  < sizeof_DataPacketHeader + 2 * bytestreamCount p
    + lengthSum p n + bsbLength p n →
  DataPacket_getBytestream p n = Throw (E57_EXCEPTION2 E57_ERROR_INTERNAL)
  ∧ E57_EXCEPTION2 E57_ERROR_INTERNAL
    ≠ E57_EXCEPTION2 E57_ERROR_BAD_CV_PACKET.
Proof.
  intros Hty Hn Hend. split; [|discriminate].
  unfold DataPacket_getBytestream. rewrite Hty. simpl negb.
  pose proof (u16At_range p 4) as Hc. fold (bytestreamCount p) in Hc.
  rewrite check_false, check_false by lia.
  rewrite sumStreamLengths_exact by lia.
  fold (packetLength p). rewrite packetLength_eq.
  pose proof (lengthSum_range p (Z.to_nat n)) as Hs.
  rewrite Z2Nat.id in Hs by lia.
  pose proof (u16At_range p (sizeof_DataPacketHeader + 2 * n)) as Hb.
  fold (bsbLength p n) in Hb.
  unfold sizeof_DataPacketHeader in *.
  rewrite usize_small by lia.
  apply check_true. lia.
Qed.

Lemma getBytestream_out_of_bounds_witness :
  DataPacket_getBytestream dataPacketShort 0
  = Throw (E57_EXCEPTION2 E57_ERROR_INTERNAL).
Proof.
  apply (getBytestream_out_of_bounds dataPacketShort 0);
    [reflexivity | vm_compute; split; [discriminate | reflexivity]
    | vm_compute; reflexivity].
Defined.

(** ** Index packets *)

(** C1, on the code.  [IndexPacket::verify] compares the declared length
    with the size of the struct, a whole index packet of 32784 bytes,
    so it rejects the three-entry packet declared with 64 bytes, with its
    entries in order as well as with two of them exchanged. *)
Theorem IndexPacket_verify_rejects_64_byte_packet
    (E57_MAX_DEBUG : bool) (bufferLength totalRecordCount fileSize : Z) :
  (packetType indexPacket64 = E57_INDEX_PACKET
   ∧ entryCount indexPacket64 = 3 ∧ indexLevel indexPacket64 = 0
   ∧ packetLogicalLengthMinus1 indexPacket64 = 63
   ∧ chunkRecordNumber indexPacket64 <$> [0; 1; 2] = [0; 5; 9]
   ∧ chunkPhysicalOffset indexPacket64 <$> [0; 1; 2] = [1024; 2048; 4096])
  ∧ IndexPacket_verify E57_MAX_DEBUG indexPacket64
      bufferLength totalRecordCount fileSize = Throw BadFormat
  ∧ IndexPacket_verify E57_MAX_DEBUG indexPacket64_swapped
      bufferLength totalRecordCount fileSize = Throw BadFormat.
Proof. split_and!; reflexivity. Qed.

(** ** Buffers that agree on a prefix *)

Lemma agree_byteAt (n : Z) (b1 b2 : list byte) (i : Z) :
  agree n b1 b2 → 0 ≤ i < n → byteAt b1 i = byteAt b2 i.
Proof. intros H Hi. by apply H. Qed.

Lemma agree_u16At (n : Z) (b1 b2 : list byte) (i : Z) :
  agree n b1 b2 → 0 ≤ i → i + 2 ≤ n → u16At b1 i = u16At b2 i.
Proof. intros H ??. unfold u16At. rewrite !(H i), !(H (i + 1)) by lia. done. Qed.

Lemma agree_u64At (n : Z) (b1 b2 : list byte) (i : Z) :
  agree n b1 b2 → 0 ≤ i → i + 8 ≤ n → u64At b1 i = u64At b2 i.
Proof.
  intros H ??. unfold u64At. change (seqZ 0 8) with [0; 1; 2; 3; 4; 5; 6; 7].
  simpl. rewrite !(H (i + _)) by lia. done.
Qed.

Lemma agree_packetType (n : Z) (b1 b2 : list byte) :
  agree n b1 b2 → 1 ≤ n → packetType b1 = packetType b2.
Proof. intros H ?. apply H. lia. Qed.

Lemma agree_packetLength (n : Z) (b1 b2 : list byte) :
  agree n b1 b2 → 4 ≤ n → packetLength b1 = packetLength b2.
Proof.
  intros H ?. unfold packetLength, packetLogicalLengthMinus1.
  by rewrite (agree_u16At n b1 b2) by (done || lia).
Qed.

Lemma agree_lengthSum (n : Z) (b1 b2 : list byte) (k : nat) :
  agree n b1 b2 → sizeof_DataPacketHeader + 2 * Z.of_nat k ≤ n →
  lengthSum b1 (Z.of_nat k) = lengthSum b2 (Z.of_nat k).
Proof.
  intros H. induction k as [|k IH]; intros Hk; [done|].
  rewrite !lengthSum_S, IH by lia. f_equal. unfold bsbLength.
  apply (agree_u16At n); unfold sizeof_DataPacketHeader in *; [done|lia..].
Qed.

Lemma agree_store (buffer bytes : list byte) :
  agree (Z.of_nat (length bytes)) bytes (store buffer bytes).
Proof.
  intros i Hi. unfold byteAt, store. by rewrite lookup_app_l by lia.
Qed.

Lemma neededLength_min (p : list byte) : sizeof_DataPacketHeader ≤ neededLength p.
Proof.
  unfold neededLength, bytestreamCount.
  pose proof (u16At_range p 4).
  pose proof (lengthSum_range p (Z.to_nat (u16At p 4))) as Hs.
  rewrite Z2Nat.id in Hs by lia. lia.
Qed.

(** ** [verify] reads the packet only below the length it is given *)

Lemma DataPacket_verify_agree (L : Z) (b1 b2 : list byte) :
  0 < L → agree L b1 b2 →
  DataPacket_verify b1 L = Ok tt → DataPacket_verify b2 L = Ok tt.
Proof.
  intros HL Hag ([Hty Hmin Hmod Hbuf Hpos Hfit] & Hlen & Hpad)%DataPacket_verify_Ok.
  apply DataPacket_verify_Ok.
  unfold sizeof_DataPacketHeader in *.
  assert (HpL : packetLength b1 = packetLength b2)
    by (apply (agree_packetLength L); [done|lia]).
  assert (Hc : bytestreamCount b1 = bytestreamCount b2)
    by (apply (agree_u16At L); [done|lia..]).
  assert (Hn : neededLength b1 = neededLength b2).
  { unfold neededLength. rewrite <- Hc. f_equal.
    rewrite <- (Z2Nat.id (bytestreamCount b1)) by lia.
    apply (agree_lengthSum L); [done|].
    unfold sizeof_DataPacketHeader. lia. }
  pose proof (neededLength_min b1). unfold sizeof_DataPacketHeader in *.
  rewrite <- Hn, <- HpL. split_and!; [|lia|lia|].
  - split; rewrite <- ?HpL, <- ?Hc; try done.
    rewrite <- Hty. symmetry. apply (agree_packetType L); [done|lia].
  - intros i Hi. rewrite <- (Hag i) by lia. by apply Hpad.
Qed.

Lemma EmptyPacketHeader_verify_agree (L : Z) (b1 b2 : list byte) :
  0 < L → agree L b1 b2 →
  EmptyPacketHeader_verify b1 L = Ok tt →
  EmptyPacketHeader_verify b2 L = Ok tt.
Proof.
  intros HL Hag. unfold EmptyPacketHeader_verify, sizeof_EmptyPacketHeader.
  rewrite !check_Ok. intros (H1 & H2 & H3 & H4 & _).
  assert (4 ≤ L) by lia.
  rewrite <- (agree_packetType L b1 b2), <- (agree_packetLength L b1 b2)
    by (done || lia).
  done.
Qed.

Lemma paddingIsZero_agree (L : Z) (b1 b2 : list byte) (from to : Z) :
  agree L b1 b2 → 0 ≤ from → to ≤ L →
  paddingIsZero b1 from to = paddingIsZero b2 from to.
Proof.
  intros Hag ??. apply eq_true_iff_eq. rewrite !paddingIsZero_spec.
  split; intros Hz i Hi; [rewrite <- (Hag i) by lia|rewrite (Hag i) by lia];
    by apply Hz.
Qed.

Lemma forallb_seqZ_ext (f g : Z → bool) (m n : Z) :
  (∀ i, m ≤ i < m + n → f i = g i) →
  forallb f (seqZ m n) = forallb g (seqZ m n).
Proof.
  intros H. apply eq_true_iff_eq. rewrite !forallb_forall.
  setoid_rewrite <- list_elem_of_In. setoid_rewrite elem_of_seqZ.
  split; intros Hf i Hi; [rewrite <- H by done|rewrite H by done]; auto.
Qed.

Lemma IndexPacket_verify_agree (E57_MAX_DEBUG : bool) (L : Z)
    (b1 b2 : list byte) (totalRecordCount fileSize : Z) :
  0 < L → agree L b1 b2 →
  IndexPacket_verify E57_MAX_DEBUG b1 L totalRecordCount fileSize = Ok tt →
  IndexPacket_verify E57_MAX_DEBUG b2 L totalRecordCount fileSize = Ok tt.
Proof.
  intros HL Hag. unfold IndexPacket_verify.
  rewrite !check_Ok. intros (H1 & H2 & H3 & H4 & H5 & H6 & H7 & H8 & H9 & H10 & H11).
  unfold sizeof_IndexPacket, MAX_ENTRIES in *.
  assert (HLL : 32784 ≤ L) by lia.
  assert (HpL : packetLength b2 = packetLength b1)
    by (symmetry; apply (agree_packetLength L); [done|lia]).
  assert (Hty : packetType b2 = packetType b1)
    by (symmetry; apply (agree_packetType L); [done|lia]).
  assert (Hc : entryCount b2 = entryCount b1)
    by (symmetry; apply (agree_u16At L); [done|lia..]).
  assert (Hlv : indexLevel b2 = indexLevel b1)
    by (symmetry; apply (agree_byteAt L); [done|lia]).
  assert (Hrs : forallb (fun i => reserved1 b2 i =? 0) (seqZ 0 sizeof_reserved1)
                = forallb (fun i => reserved1 b1 i =? 0) (seqZ 0 sizeof_reserved1)).
  { apply forallb_seqZ_ext. intros i Hi. unfold reserved1, sizeof_reserved1 in *.
    by rewrite (agree_byteAt L b1 b2) by (done || lia). }
  pose proof (u16At_range b1 4) as Hec. fold (entryCount b1) in Hec.
  rewrite HpL, Hty, Hc, Hlv, Hrs. split_and!; try done.
  rewrite u32_small in * by lia.
  destruct E57_MAX_DEBUG; [|done].
  rewrite !check_Ok in *. destruct H11 as (H11 & H12 & _).
  rewrite <- (paddingIsZero_agree L b1 b2) by (done || lia).
  split_and!; try done.
  rewrite <- H12. f_equal. apply forallb_seqZ_ext. intros i Hi.
  unfold entryInOrder, chunkRecordNumber, chunkPhysicalOffset.
  rewrite !(agree_u64At L b2 b1); try done; try lia;
    intros j Hj; symmetry; by apply Hag.
Qed.

Lemma verifyPacket_agree (E57_MAX_DEBUG : bool) (type L : Z)
    (b1 b2 : list byte) :
  0 < L → agree L b1 b2 →
  verifyPacket E57_MAX_DEBUG type b1 L = Ok tt →
  verifyPacket E57_MAX_DEBUG type b2 L = Ok tt.
Proof.
  intros HL Hag. unfold verifyPacket.
  repeat case_match; try done.
  - by apply DataPacket_verify_agree.
  - by apply IndexPacket_verify_agree.
  - by apply EmptyPacketHeader_verify_agree.
Qed.

(** ** Reading from the file *)

Lemma CheckedFile_read_seek (f : CheckedFile) (offset n : Z) :
  CheckedFile_read (CheckedFile_seek f offset) n
  = match bytesAt (contents f) offset n with
    | Some bytes =>
        ({| contents := contents f; position := offset + n |}, Ok bytes)
    | None =>
        (CheckedFile_seek f offset,
         Throw (E57_EXCEPTION2 E57_ERROR_READ_FAILED))
    end.
Proof.
  unfold CheckedFile_read, bytesAt, CheckedFile_seek. simpl.
  by case_match.
Qed.

Lemma bytesAt_length (cs : list byte) (offset n : Z) (bytes : list byte) :
  0 ≤ offset → 0 ≤ n → bytesAt cs offset n = Some bytes →
  Z.of_nat (length bytes) = n.
Proof.
  unfold bytesAt. case_match; [|done]. intros ?? [= <-].
  rewrite length_take, length_drop. lia.
Qed.

Lemma packetLength_too_long_never (header : list byte) :
  packetLength_too_long (packetLength header) = false.
Proof.
  unfold packetLength_too_long, E57_DATA_PACKET_MAX.
  pose proof (packetLength_range header). lia.
Qed.

Lemma length_store (buffer bytes : list byte) :
  (length bytes ≤ length buffer)%nat →
  length (store buffer bytes) = length buffer.
Proof. intros. unfold store. rewrite length_app, length_drop. lia. Qed.

(** A valid packet is read into the chosen slot, which is then stamped. *)
Lemma readPacket_valid (E57_MAX_DEBUG : bool) (c : PacketReadCache)
    (i : nat) (e : CacheEntry) (offset : Z) :
  validPacketAt E57_MAX_DEBUG (cFile_ c) offset = true →
  entries_ c !! i = Some e →
  ∃ f' buffer,
    contents f' = contents (cFile_ c)
    ∧ readPacket E57_MAX_DEBUG c i offset
      = ({| lockCount_ := lockCount_ c;
            useCount_ := u32 (useCount_ c + 1);
            cFile_ := f';
            entries_ :=
              <[i := {| logicalOffset_ := offset; buffer_ := buffer;
                        lastUsed_ := u32 (useCount_ c + 1) |}]>
                (entries_ c) |},
         Ok tt).
Proof.
  unfold validPacketAt. intros [Hoff Hv]%andb_true_iff He.
  destruct (bytesAt _ offset sizeof_EmptyPacketHeader)
    as [header|] eqn:Hhdr; [|done].
  destruct (bytesAt _ offset (packetLength header))
    as [bytes|] eqn:Hbytes; [|done].
  destruct (verifyPacket _ _ bytes _) as [[]|] eqn:Hver; [|done].
  pose proof (packetLength_range header) as Hlen.
  apply bytesAt_length in Hbytes as Hbl; [|lia..].
  apply (verifyPacket_agree _ _ _ _ (store (buffer_ e) bytes)) in Hver;
    [|lia|rewrite <- Hbl; apply agree_store].
  unfold readPacket.
  rewrite CheckedFile_read_seek, Hhdr, packetLength_too_long_never.
  rewrite CheckedFile_read_seek, He. simpl contents. rewrite Hbytes, Hver.
  eexists _, _. split; [|reflexivity]. done.
Qed.

(** ** The scan for a matching slot *)

Lemma findMatch_None (offset : Z) (es : list CacheEntry) (k : nat) :
  findMatch offset es k = None
  ↔ ∀ j e, es !! j = Some e → logicalOffset_ e ≠ offset.
Proof.
  revert k. induction es as [|e es IH]; intros k; simpl.
  - split; [|done]. by intros _ j e' ?.
  - destruct (Z.eqb_spec offset (logicalOffset_ e)) as [->|Hne].
    + split; [done|]. intros H. by destruct (H 0%nat e).
    + rewrite IH. split.
      * intros H [|j] e'; simpl; [by intros [= <-]|]. apply H.
      * intros H j e' Hj. by apply (H (S j)).
Qed.

Lemma findMatch_Some (offset : Z) (es : list CacheEntry) (k i : nat) :
  findMatch offset es k = Some i →
  (k ≤ i)%nat
  ∧ ∃ e, es !! (i - k)%nat = Some e ∧ logicalOffset_ e = offset.
Proof.
  revert k. induction es as [|e es IH]; intros k; simpl; [done|].
  destruct (Z.eqb_spec offset (logicalOffset_ e)) as [->|Hne].
  - intros [= <-]. split; [lia|]. rewrite Nat.sub_diag. eauto.
  - intros (Hle & e' & He' & Hoff)%IH. split; [lia|].
    exists e'. split; [|done].
    replace (i - k)%nat with (S (i - S k)) by lia. done.
Qed.

(** ** The scan for the least recently used slot *)

Lemma scanOldest_firstMinimum (pre es : list CacheEntry) (oldest : nat)
    (eo : CacheEntry) :
  (pre ++ es) !! oldest = Some eo →
  (∀ j e, (j < length pre)%nat → (pre ++ es) !! j = Some e →
          lastUsed_ eo ≤ lastUsed_ e) →
  (∀ j e, (j < oldest)%nat → (pre ++ es) !! j = Some e →
          lastUsed_ eo < lastUsed_ e) →
  firstMinimum (pre ++ es)
    (scanOldest es (length pre) oldest (lastUsed_ eo)).
Proof.
  revert pre oldest eo.
  induction es as [|e es IH]; intros pre oldest eo Ho Hle Hlt; simpl.
  - exists eo. split_and!; [done| |done].
    intros j e' Hj. apply (Hle j); [|done].
    apply lookup_lt_Some in Hj. by rewrite app_nil_r in Hj.
  - assert (Hmid : (pre ++ e :: es) !! length pre = Some e)
      by (by rewrite list_lookup_middle).
    rewrite (cons_middle e pre es), app_assoc in *.
    replace (S (length pre)) with (length (pre ++ [e]))
      by (rewrite length_app; simpl; lia).
    destruct (Z.ltb_spec (lastUsed_ e) (lastUsed_ eo)) as [Hnew|Hold].
    + apply IH; [done| |].
      * intros j e' Hj He'. rewrite length_app in Hj. simpl in Hj.
        destruct (decide (j = length pre)) as [->|Hne].
        -- rewrite Hmid in He'. injection He' as <-. lia.
        -- assert (lastUsed_ eo ≤ lastUsed_ e')
             by (apply (Hle j); [lia|done]). lia.
      * intros j e' Hj He'.
        assert (lastUsed_ eo ≤ lastUsed_ e')
          by (by apply (Hle j)). lia.
    + apply IH; [done| |done].
      intros j e' Hj He'. rewrite length_app in Hj. simpl in Hj.
      destruct (decide (j = length pre)) as [->|Hne].
      * rewrite Hmid in He'. injection He' as <-. lia.
      * apply (Hle j); [lia|done].
Qed.

Lemma findOldest_firstMinimum (es : list CacheEntry) :
  es ≠ [] → ∃ i, findOldest es = Ok i ∧ firstMinimum es i.
Proof.
  intros Hne. unfold findOldest.
  destruct es as [|e0 es']; [done|]. simpl lookup. cbv iota.
  eexists. split; [reflexivity|].
  apply (scanOldest_firstMinimum [] (e0 :: es') 0 e0); [done|..];
    intros j e Hj; simpl in Hj; lia.
Qed.

Lemma firstMinimum_unique (es : list CacheEntry) (i i' : nat) :
  firstMinimum es i → firstMinimum es i' → i = i'.
Proof.
  intros (e & He & Hle & Hlt) (e' & He' & Hle' & Hlt').
  destruct (Nat.lt_trichotomy i i') as [Hc|[Hc|Hc]]; [|done|].
  - pose proof (Hlt' i e Hc He). pose proof (Hle i' e' He'). lia.
  - pose proof (Hlt i' e' Hc He'). pose proof (Hle' i e He). lia.
Qed.

(** ** [lock] and [unlock] *)

Lemma lock_locked (E57_MAX_DEBUG : bool) (c : PacketReadCache) (offset : Z) :
  0 < lockCount_ c → lock E57_MAX_DEBUG c offset = (c, Throw InternalError).
Proof. intros H. unfold lock. by rewrite (proj2 (Z.ltb_lt _ _) H). Qed.

Lemma lock_miss (E57_MAX_DEBUG : bool) (c : PacketReadCache) (offset : Z) :
  lockCount_ c = 0 → offset ≠ 0 → entries_ c ≠ [] →
  (∀ j e, entries_ c !! j = Some e → logicalOffset_ e ≠ offset) →
  ∃ i, firstMinimum (entries_ c) i
       ∧ lock E57_MAX_DEBUG c offset = lock_fill E57_MAX_DEBUG c i offset.
Proof.
  intros Hlc Hoff Hne Hmiss. unfold lock. rewrite Hlc. simpl.
  rewrite (proj2 (Z.eqb_neq _ _) Hoff).
  rewrite (proj2 (findMatch_None offset (entries_ c) 0) Hmiss).
  destruct (findOldest_firstMinimum _ Hne) as (i & -> & Hmin). eauto.
Qed.

Lemma lock_fill_valid (E57_MAX_DEBUG : bool) (c : PacketReadCache)
    (i : nat) (e : CacheEntry) (offset : Z) :
  validPacketAt E57_MAX_DEBUG (cFile_ c) offset = true →
  entries_ c !! i = Some e →
  ∃ f' buffer,
    contents f' = contents (cFile_ c)
    ∧ lock_fill E57_MAX_DEBUG c i offset
      = ({| lockCount_ := u32 (lockCount_ c + 1);
            useCount_ := u32 (useCount_ c + 1);
            cFile_ := f';
            entries_ :=
              <[i := {| logicalOffset_ := offset; buffer_ := buffer;
                        lastUsed_ := u32 (useCount_ c + 1) |}]>
                (entries_ c) |},
         Ok ({| cacheIndex_ := i |}, buffer)).
Proof.
  intros Hv He.
  destruct (readPacket_valid _ c i e offset Hv He) as (f' & buffer & Hf & Hr).
  exists f', buffer. split; [done|].
  unfold lock_fill. rewrite Hr. simpl entries_.
  rewrite list_lookup_insert_eq by (by eapply lookup_lt_Some). done.
Qed.

Lemma lock_succeeds (E57_MAX_DEBUG : bool) (c : PacketReadCache) (offset : Z) :
  lockCount_ c = 0 → offset ≠ 0 → entries_ c ≠ [] →
  validPacketAt E57_MAX_DEBUG (cFile_ c) offset = true →
  ∃ c' guard pkt,
    lock E57_MAX_DEBUG c offset = (c', Ok (guard, pkt)) ∧ lockCount_ c' = 1.
Proof.
  intros Hlc Hoff Hne Hv.
  destruct (findMatch offset (entries_ c) 0) as [i|] eqn:Hfind.
  - unfold lock. rewrite Hlc. simpl.
    rewrite (proj2 (Z.eqb_neq _ _) Hoff), Hfind.
    apply findMatch_Some in Hfind as (_ & e & He & _).
    rewrite Nat.sub_0_r in He. rewrite He. eexists _, _, _.
    split; [reflexivity|]. done.
  - destruct (lock_miss E57_MAX_DEBUG c offset) as (i & (e & He & _) & ->);
      [done..|by apply (findMatch_None offset (entries_ c) 0)|].
    destruct (lock_fill_valid _ c i e offset Hv He) as (f' & b & _ & ->).
    eexists _, _, _. split; [reflexivity|]. simpl. by rewrite Hlc.
Qed.

Lemma unlock_locked (c : PacketReadCache) (i : nat) :
  lockCount_ c = 1 → unlock c i = (set_lockCount c 0, Ok tt).
Proof. intros H. unfold unlock. by rewrite H. Qed.

Lemma unlock_not_locked (c : PacketReadCache) (i : nat) :
  lockCount_ c ≠ 1 → unlock c i = (c, Throw InternalError).
Proof. intros H. unfold unlock. by rewrite (proj2 (Z.eqb_neq _ _) H). Qed.

(** C6.  While a lock is outstanding ([lockCount_] is 1), [lock] throws an
    internal error and leaves the cache as it was; once the guard has been
    destroyed the count is back at 0, and a [lock] at a nonzero offset
    where the file holds a valid packet succeeds. *)
Theorem lock_is_exclusive (E57_MAX_DEBUG : bool) (c : PacketReadCache)
    (guard : PacketLock) (offset offset' : Z) :
  lockCount_ c = 1 →
  entries_ c ≠ [] →
  lock E57_MAX_DEBUG c offset = (c, Throw InternalError)
  ∧ lockCount_ (PacketLock_destroy guard c).1 = 0
  ∧ (offset' ≠ 0 →
     validPacketAt E57_MAX_DEBUG (cFile_ c) offset' = true →
     ∃ c' guard' pkt,
       lock E57_MAX_DEBUG (PacketLock_destroy guard c).1 offset'
       = (c', Ok (guard', pkt))).
Proof.
  intros Hlc Hne. split_and!.
  - apply lock_locked. lia.
  - unfold PacketLock_destroy. by rewrite unlock_locked.
  - intros Hoff Hv. unfold PacketLock_destroy. rewrite unlock_locked by done.
    simpl.
    destruct (lock_succeeds E57_MAX_DEBUG (set_lockCount c 0) offset')
      as (c' & g & pkt & Hl & _); [done..|]. eauto.
Qed.


Lemma lock_is_exclusive_witness :
  lock false (set_lockCount oneSlotCache 1) 4
  = (set_lockCount oneSlotCache 1, Throw InternalError)
  ∧ ∃ c' guard' pkt,
      lock false
        (PacketLock_destroy {| cacheIndex_ := 0 |}
           (set_lockCount oneSlotCache 1)).1 4
      = (c', Ok (guard', pkt)).
Proof.
  destruct (lock_is_exclusive false (set_lockCount oneSlotCache 1)
              {| cacheIndex_ := 0 |} 4 4) as (H1 & _ & H3);
    [reflexivity|discriminate|].
  split; [exact H1|]. apply H3; [discriminate|vm_compute; reflexivity].
Defined.

(** C10.  Destroying a guard calls [unlock] once and never throws: its
    effect on the cache is that of the one [unlock], and when the lock
    count is not 1, where [unlock] throws an internal error, the destructor
    returns normally and the cache is as it was. *)
Theorem PacketLock_destroy_never_throws
    (guard : PacketLock) (c : PacketReadCache) :
  PacketLock_destroy guard c = ((unlock c (cacheIndex_ guard)).1, Ok tt)
  ∧ (lockCount_ c ≠ 1 →
     unlock c (cacheIndex_ guard) = (c, Throw InternalError)
     ∧ PacketLock_destroy guard c = (c, Ok tt)).
Proof.
  unfold PacketLock_destroy, try_catch_all. split.
  - by destruct (unlock c (cacheIndex_ guard)) as [c' [[]|e]].
  - intros Hlc. by rewrite unlock_not_locked.
Qed.

Lemma PacketLock_destroy_never_throws_witness :
  unlock oneSlotCache 0 = (oneSlotCache, Throw InternalError)
  ∧ PacketLock_destroy {| cacheIndex_ := 0 |} oneSlotCache
    = (oneSlotCache, Ok tt).
Proof.
  apply (PacketLock_destroy_never_throws {| cacheIndex_ := 0 |} oneSlotCache).
  simpl. discriminate.
Defined.

(** ** Reading a packet into a slot *)

Lemma bytesAt_length_le (cs : list byte) (offset n : Z) (bytes : list byte) :
  bytesAt cs offset n = Some bytes → (length bytes ≤ Z.to_nat n)%nat.
Proof.
  unfold bytesAt. case_match; [|done]. intros [= <-].
  rewrite length_take. lia.
Qed.

(** C9.  The length [readPacket] takes from the four bytes of the common
    header is at most [E57_DATA_PACKET_MAX], so the guard before the full
    read never fires, and the full read stays within the slot's buffer of
    [E57_DATA_PACKET_MAX] bytes: the buffer has that length afterwards,
    however [readPacket] ends. *)
Theorem readPacket_length_fits_buffer (E57_MAX_DEBUG : bool)
    (header : list byte) (c : PacketReadCache) (oldestEntry : nat)
    (offset : Z) (e : CacheEntry) :
  packetLength header ≤ E57_DATA_PACKET_MAX
  ∧ packetLength_too_long (packetLength header) = false
  ∧ (entries_ c !! oldestEntry = Some e →
     length (buffer_ e) = Z.to_nat E57_DATA_PACKET_MAX →
     ∃ e',
       entries_ (readPacket E57_MAX_DEBUG c oldestEntry offset).1
         !! oldestEntry = Some e'
       ∧ length (buffer_ e') = Z.to_nat E57_DATA_PACKET_MAX).
Proof.
  split_and!.
  - pose proof (packetLength_range header). unfold E57_DATA_PACKET_MAX. lia.
  - apply packetLength_too_long_never.
  - intros He Hlen. unfold readPacket.
    rewrite CheckedFile_read_seek.
    destruct (bytesAt _ offset sizeof_EmptyPacketHeader) as [hdr|];
      [|by exists e].
    rewrite packetLength_too_long_never, He, CheckedFile_read_seek.
    simpl contents.
    destruct (bytesAt _ offset (packetLength hdr)) as [bytes|] eqn:Hb;
      [|by exists e].
    apply bytesAt_length_le in Hb.
    pose proof (packetLength_range hdr) as Hr.
    assert (Hst : length (store (buffer_ e) bytes)
                  = Z.to_nat E57_DATA_PACKET_MAX).
    { rewrite length_store; [done|].
      rewrite Hlen. unfold E57_DATA_PACKET_MAX. lia. }
    apply lookup_lt_Some in He.
    destruct (verifyPacket _ _ _ _); simpl;
      rewrite list_lookup_insert_eq by done; eauto.
Qed.

Lemma readPacket_length_fits_buffer_witness :
  ∃ e',
    entries_ (readPacket false oneSlotCache 0 16).1 !! 0%nat = Some e'
    ∧ length (buffer_ e') = Z.to_nat E57_DATA_PACKET_MAX.
Proof.
  apply (readPacket_length_fits_buffer false [] oneSlotCache 0 16 unusedEntry).
  - reflexivity.
  - apply length_replicate.
Defined.

(** C2, on the code.  [readPacket] stores the packet in the slot's buffer
    before it verifies it, and a slot that already held a packet keeps its
    [logicalOffset_] when verification throws.  Here the only slot holds
    the packet of offset 4; reading the rejected packet of offset 8 into it
    throws, and the next [lock] at offset 4 is a cache hit that publishes
    the bytes of the packet of offset 8. *)
Theorem failed_readPacket_keeps_offset_of_overwritten_slot
    (E57_MAX_DEBUG : bool) :
  let r1 := lock E57_MAX_DEBUG oneSlotCache 4 in
  let c1 := (PacketLock_destroy {| cacheIndex_ := 0 |} r1.1).1 in
  let r2 := lock E57_MAX_DEBUG c1 8 in
  let r3 := lock E57_MAX_DEBUG r2.1 4 in
  bytesAt (contents exampleFile) 4 4 = Some emptyPacket4
  ∧ seen 4 r1.2 = Ok (0%nat, emptyPacket4)
  ∧ (readPacket E57_MAX_DEBUG c1 0 8).2 = Throw BadFormat
  ∧ seen 4 r2.2 = Throw BadFormat
  ∧ lockCount_ r2.1 = 0
  ∧ (logicalOffset_ <$> entries_ r2.1) = [4]
  ∧ (take 8 ∘ buffer_ <$> entries_ r2.1) = [badDataPacket8]
  ∧ seen 4 r3.2 = Ok (0%nat, take 4 badDataPacket8)
  ∧ take 4 badDataPacket8 ≠ emptyPacket4.
Proof.
  destruct E57_MAX_DEBUG; split_and!;
    try (vm_compute; reflexivity); discriminate.
Qed.

(** ** Filling a new cache, one packet after the other *)

Lemma validPacketAt_contents (E57_MAX_DEBUG : bool) (f f' : CheckedFile)
    (offset : Z) :
  contents f = contents f' →
  validPacketAt E57_MAX_DEBUG f offset = validPacketAt E57_MAX_DEBUG f' offset.
Proof. intros H. unfold validPacketAt. by rewrite H. Qed.

Lemma filledUpTo_new (f : CheckedFile) (N : nat) (fresh : nat → list byte)
    (offsets : list Z) (c : PacketReadCache) :
  PacketReadCache_new f N fresh = Ok c → filledUpTo f N offsets 0 c.
Proof.
  unfold PacketReadCache_new. intros [_ [= <-]]%check_Ok.
  split_and!; simpl; [done..|by rewrite length_fmap, length_seq|].
  intros j e (i & -> & _)%list_lookup_fmap_Some. simpl. done.
Qed.

Lemma filledUpTo_miss (f : CheckedFile) (N : nat) (offsets : list Z)
    (k : nat) (c : PacketReadCache) (offset : Z) :
  filledUpTo f N offsets k c → NoDup (offsets ++ [offset]) → offset ≠ 0 →
  (k ≤ length offsets)%nat →
  ∀ j e, entries_ c !! j = Some e → logicalOffset_ e ≠ offset.
Proof.
  intros (_ & _ & _ & _ & Hes) Hnd Hoff Hk j e He Heq.
  specialize (Hes j e He). destruct (decide (j < k)%nat); [|lia].
  destruct Hes as [Hj _]. rewrite Heq in Hj.
  apply NoDup_app in Hnd as (_ & Hnd & _).
  apply (Hnd offset); [by eapply list_elem_of_lookup_2|apply list_elem_of_here].
Qed.

Lemma filledUpTo_firstMinimum (f : CheckedFile) (N : nat) (offsets : list Z)
    (k : nat) (c : PacketReadCache) :
  filledUpTo f N offsets k c → (0 < N)%nat →
  firstMinimum (entries_ c) (if decide (k < N)%nat then k else 0%nat).
Proof.
  intros (_ & _ & _ & Hlen & Hes) HN.
  assert (Hlt : ((if decide (k < N)%nat then k else 0%nat) < length (entries_ c))%nat)
    by (case_decide; lia).
  apply lookup_lt_is_Some_2 in Hlt as [e He]. exists e.
  pose proof (Hes _ e He) as Hmin.
  split_and!; [done|..].
  - intros j e' He'. specialize (Hes j e' He').
    apply lookup_lt_Some in He'.
    repeat case_decide; lia.
  - intros j e' Hj He'. specialize (Hes j e' He').
    repeat case_decide; lia.
Qed.

Lemma lockRelease_fills (E57_MAX_DEBUG : bool) (f : CheckedFile) (N : nat)
    (offsets : list Z) (k : nat) (c : PacketReadCache) (offset : Z) :
  filledUpTo f N offsets k c →
  Z.of_nat N < 2 ^ 32 → (k < N)%nat →
  offsets !! k = Some offset → NoDup offsets →
  offset ≠ 0 → validPacketAt E57_MAX_DEBUG f offset = true →
  ∃ c', lockRelease E57_MAX_DEBUG c offset = Some c'
        ∧ filledUpTo f N offsets (S k) c'.
Proof.
  intros Hinv HN Hk Hoff Hnd Hnz Hv.
  pose proof Hinv as (Hlc & Huc & Hf & Hlen & Hes).
  assert (Hmiss : ∀ j e, entries_ c !! j = Some e → logicalOffset_ e ≠ offset).
  { intros j e He Heq. specialize (Hes j e He).
    destruct (decide (j < k)%nat) as [Hjk|]; [|lia].
    destruct Hes as [Hj _]. rewrite Heq in Hj.
    assert (j = k) by (by eapply NoDup_lookup). lia. }
  destruct (lock_miss E57_MAX_DEBUG c offset) as (i & Hmin & Hlock);
    [done|done|by intros Hnil; rewrite Hnil in Hlen; simpl in Hlen; lia|done|].
  pose proof (filledUpTo_firstMinimum f N offsets k c Hinv) as Hmin'.
  rewrite decide_True in Hmin' by done.
  assert (i = k) as -> by (eapply firstMinimum_unique; [done|apply Hmin'; lia]).
  destruct Hmin as (e & He & _).
  rewrite (validPacketAt_contents _ f (cFile_ c)) in Hv by done.
  destruct (lock_fill_valid _ c k e offset Hv He) as (f' & buf & Hf' & Hfill).
  unfold lockRelease. rewrite Hlock, Hfill.
  eexists. split; [reflexivity|].
  unfold PacketLock_destroy. rewrite unlock_locked; simpl.
  2:{ rewrite Hlc. done. }
  rewrite Huc, Hlc, !u32_small by lia.
  split_and!; simpl; [done|lia|congruence|by rewrite length_insert|].
  intros j e' He'.
  destruct (decide (j = k)) as [->|Hne].
  - rewrite list_lookup_insert_eq in He' by lia. injection He' as <-.
    simpl. rewrite decide_True by lia. split; [done|lia].
  - rewrite list_lookup_insert_ne in He' by done.
    specialize (Hes j e' He').
    destruct (decide (j < k)%nat); [rewrite decide_True by lia|
                                    rewrite decide_False by lia]; done.
Qed.

Lemma lockReleaseAll_fills (E57_MAX_DEBUG : bool) (f : CheckedFile) (N : nat)
    (offsets : list Z) :
  Z.of_nat N < 2 ^ 32 → NoDup offsets →
  Forall (fun o => o ≠ 0 ∧ validPacketAt E57_MAX_DEBUG f o = true) offsets →
  ∀ (rest : list Z) (k : nat) (c : PacketReadCache),
    filledUpTo f N offsets k c →
    drop k offsets = rest → (k + length rest ≤ N)%nat →
    ∃ c', lockReleaseAll E57_MAX_DEBUG c rest = Some c'
          ∧ filledUpTo f N offsets (k + length rest) c'.
Proof.
  intros HN Hnd Hall rest.
  induction rest as [|o rest IH]; intros k c Hinv Hdrop Hk; simpl.
  - exists c. by rewrite Nat.add_0_r.
  - simpl in Hk.
    assert (Ho : offsets !! k = Some o).
    { rewrite <- (Nat.add_0_r k), <- lookup_drop, Hdrop. done. }
    rewrite Forall_forall in Hall.
    destruct (Hall o) as [Hnz Hv]; [by eapply list_elem_of_lookup_2|].
    destruct (lockRelease_fills E57_MAX_DEBUG f N offsets k c o)
      as (c1 & -> & Hinv1); [done|done|lia|done..|].
    destruct (IH (S k) c1) as (c' & Hrun & Hinv'); [done| |lia|].
    { by rewrite (drop_S _ _ _ Ho) in Hdrop; injection Hdrop. }
    exists c'. split; [done|].
    by replace (k + S (length rest))%nat with (S k + length rest)%nat by lia.
Qed.

(** C7.  When no lock is outstanding and the nonzero offset is in no slot,
    [lock] replaces the slot with the least [lastUsed_] stamp, the first of
    them from slot 0 on when several have it.  In particular, on a new
    cache of [N] slots, after [N] distinct packets have been locked and
    released one after the other, slot [j] holds the j-th of them with
    stamp [j + 1], and the lock of one more packet replaces slot 0: the
    slot whose latest use is the earliest. *)
Theorem lock_replaces_least_recently_used (E57_MAX_DEBUG : bool) :
  (∀ (c : PacketReadCache) (offset : Z),
     lockCount_ c = 0 → offset ≠ 0 → entries_ c ≠ [] →
     (∀ j e, entries_ c !! j = Some e → logicalOffset_ e ≠ offset) →
     ∃ i, firstMinimum (entries_ c) i
          ∧ lock E57_MAX_DEBUG c offset
            = lock_fill E57_MAX_DEBUG c i offset)
  ∧ (∀ (f : CheckedFile) (fresh : nat → list byte) (N : nat)
       (c0 : PacketReadCache) (offsets : list Z) (last : Z),
       PacketReadCache_new f N fresh = Ok c0 →
       Z.of_nat N < 2 ^ 32 →
       length offsets = N →
       NoDup (offsets ++ [last]) →
       Forall (fun o => o ≠ 0 ∧ validPacketAt E57_MAX_DEBUG f o = true)
         (offsets ++ [last]) →
       ∃ c c' guard pkt,
         lockReleaseAll E57_MAX_DEBUG c0 offsets = Some c
         ∧ length (entries_ c) = N
         ∧ (∀ j e, entries_ c !! j = Some e →
                   offsets !! j = Some (logicalOffset_ e)
                   ∧ lastUsed_ e = Z.of_nat j + 1)
         ∧ firstMinimum (entries_ c) 0
         ∧ lock E57_MAX_DEBUG c last = (c', Ok (guard, pkt))
         ∧ cacheIndex_ guard = 0%nat
         ∧ logicalOffset_ <$> entries_ c'
           = <[0%nat := last]> (logicalOffset_ <$> entries_ c)).
Proof.
  split; [apply lock_miss|].
  intros f fresh N c0 offsets last Hnew HN Hlen Hnd Hall.
  assert (HN0 : (0 < N)%nat).
  { unfold PacketReadCache_new in Hnew.
    apply check_Ok in Hnew as [Hz _]. lia. }
  apply (filledUpTo_new f N fresh offsets) in Hnew.
  pose proof Hnd as (Hnd' & _ & _)%NoDup_app.
  pose proof Hall as [Hall' [Hlast Hvalid]%Forall_singleton]%Forall_app.
  destruct (lockReleaseAll_fills E57_MAX_DEBUG f N offsets HN Hnd' Hall'
              offsets 0%nat c0) as (c & Hrun & Hinv); [done|done|lia|].
  simpl in Hinv. rewrite Hlen in Hinv.
  pose proof Hinv as (Hlc & Huc & Hf & HlenE & Hes).
  pose proof (filledUpTo_firstMinimum f N offsets N c Hinv HN0) as Hmin.
  rewrite decide_False in Hmin by lia.
  destruct (lock_miss E57_MAX_DEBUG c last) as (i & Hmin' & Hlock);
    [done|done|by intros Hnil; rewrite Hnil in HlenE; simpl in HlenE; lia
    |by eapply filledUpTo_miss; [done..|lia]|].
  assert (i = 0%nat) as -> by (by eapply firstMinimum_unique).
  destruct Hmin as (e0 & He0 & Hmin).
  rewrite (validPacketAt_contents _ f (cFile_ c)) in Hvalid by done.
  destruct (lock_fill_valid _ c 0 e0 last Hvalid He0)
    as (f' & buf & _ & Hfill).
  eexists c, _, _, _. split_and!; [done|done| |by exists e0| | |].
  - intros j e He. specialize (Hes j e He).
    apply lookup_lt_Some in He. by rewrite decide_True in Hes by lia.
  - by rewrite Hlock, Hfill.
  - done.
  - simpl. by rewrite list_fmap_insert.
Qed.

Lemma lock_replaces_least_recently_used_witness :
  ∃ c c' guard pkt,
    lockReleaseAll false twoSlotCache [4; 16] = Some c
    ∧ length (entries_ c) = 2%nat
    ∧ (∀ j e, entries_ c !! j = Some e →
              [4; 16] !! j = Some (logicalOffset_ e)
              ∧ lastUsed_ e = Z.of_nat j + 1)
    ∧ firstMinimum (entries_ c) 0
    ∧ lock false c 56 = (c', Ok (guard, pkt))
    ∧ cacheIndex_ guard = 0%nat
    ∧ logicalOffset_ <$> entries_ c'
      = <[0%nat := 56]> (logicalOffset_ <$> entries_ c).
Proof.
  apply (proj2 (lock_replaces_least_recently_used false)
           exampleFile (fun _ => zeroBuffer) 2%nat twoSlotCache [4; 16] 56).
  - reflexivity.
  - lia.
  - reflexivity.
  - apply (bool_decide_unpack (NoDup [4; 16; 56])). vm_compute. exact I.
  - repeat (constructor; [split; [lia|vm_compute; reflexivity]|]).
    constructor.
Defined.

(** * Further properties of the code *)

(** ** The [verify] methods *)

Lemma EmptyPacketHeader_verify_Throw (p : list byte) (bufferLength : Z)
    (e : exn) :
  EmptyPacketHeader_verify p bufferLength = Throw e → e = BadFormat.
Proof.
  unfold EmptyPacketHeader_verify, check.
  repeat (case_match; [congruence|]). done.
Qed.

Lemma IndexPacket_verify_Throw (E57_MAX_DEBUG : bool) (p : list byte)
    (bufferLength totalRecordCount fileSize : Z) (e : exn) :
  IndexPacket_verify E57_MAX_DEBUG p bufferLength totalRecordCount fileSize
  = Throw e →
  e = BadFormat.
Proof.
  unfold IndexPacket_verify, check.
  destruct E57_MAX_DEBUG; repeat (case_match; [congruence|]); done.
Qed.

(** X1.  Whatever the packet, the four [verify] methods throw nothing but
    [E57_ERROR_BAD_CV_PACKET]. *)
Theorem verify_throws_only_BadFormat (E57_MAX_DEBUG : bool) (p : list byte)
    (bufferLength totalRecordCount fileSize : Z) (e : exn) :
  (DataPacketHeader_verify p bufferLength = Throw e → e = BadFormat)
  ∧ (DataPacket_verify p bufferLength = Throw e → e = BadFormat)
  ∧ (IndexPacket_verify E57_MAX_DEBUG p bufferLength totalRecordCount
       fileSize = Throw e → e = BadFormat)
  ∧ (EmptyPacketHeader_verify p bufferLength = Throw e → e = BadFormat).
Proof.
  split_and!.
  - apply DataPacketHeader_verify_Throw.
  - apply DataPacket_verify_Throw.
  - apply IndexPacket_verify_Throw.
  - apply EmptyPacketHeader_verify_Throw.
Qed.

Lemma verify_throws_only_BadFormat_witness :
  DataPacket_verify dataPacket44 0 = Throw BadFormat
  ∧ IndexPacket_verify true indexPacket64 0 0 0 = Throw BadFormat.
Proof.
  destruct (DataPacket_verify dataPacket44 0) as [[]|e1] eqn:H1;
    [discriminate H1|].
  destruct (IndexPacket_verify true indexPacket64 0 0 0) as [[]|e2] eqn:H2;
    [discriminate H2|].
  split; f_equal.
  - apply (verify_throws_only_BadFormat true dataPacket44 0 0 0 e1).
    exact H1.
  - apply (verify_throws_only_BadFormat true indexPacket64 0 0 0 e2).
    exact H2.
Defined.

(** X2.  [DataPacket::verify] accepts a packet exactly when its type is
    [E57_DATA_PACKET], it has at least one bytestream, its declared length
    is the needed length (header, length table and streams) rounded up to
    a multiple of 4, the bytes between the two are zero, and the declared
    length does not exceed a given buffer length.  So the contents fix the
    declared length. *)
Theorem DataPacket_verify_iff (p : list byte) (bufferLength : Z) :
  DataPacket_verify p bufferLength = Ok tt
  ↔ packetType p = E57_DATA_PACKET
    ∧ 0 < bytestreamCount p
    ∧ packetLogicalLengthMinus1 p + 1 = 4 * ((neededLength p + 3) / 4)
    ∧ (∀ i, neededLength p ≤ i < packetLogicalLengthMinus1 p + 1 →
            byteAt p i = 0)
    ∧ (bufferLength ≤ 0 ∨ packetLogicalLengthMinus1 p + 1 ≤ bufferLength).
Proof.
  rewrite DataPacket_verify_Ok, packetLength_eq.
  pose proof (neededLength_min p) as Hmin.
  assert (Htab : sizeof_DataPacketHeader + 2 * bytestreamCount p
                 ≤ neededLength p).
  { unfold neededLength, bytestreamCount. pose proof (u16At_range p 4).
    pose proof (lengthSum_range p (Z.to_nat (u16At p 4))) as Hs.
    rewrite Z2Nat.id in Hs by lia. lia. }
  unfold sizeof_DataPacketHeader in *.
  split.
  - intros ([Hty Hl Hmod Hbuf Hpos Hfit] & Hlen & Hpad).
    rewrite packetLength_eq in *.
    split_and!; [done|done| |done|done].
    clear -Hmod Hlen. Z.div_mod_to_equations. lia.
  - intros (Hty & Hpos & Hlen & Hpad & Hbuf).
    assert (Hmod : (packetLogicalLengthMinus1 p + 1) mod 4 = 0)
      by (rewrite Hlen, Z.mul_comm; apply Z.mod_mul; lia).
    assert (neededLength p ≤ packetLogicalLengthMinus1 p + 1
            ≤ neededLength p + 3)
      by (clear -Hlen; Z.div_mod_to_equations; lia).
    split_and!; [|lia|lia|done].
    split; rewrite ?packetLength_eq; unfold sizeof_DataPacketHeader;
      done || lia.
Qed.

Lemma DataPacket_verify_iff_witness :
  packetLogicalLengthMinus1 dataPacket40 + 1
  = 4 * ((neededLength dataPacket40 + 3) / 4).
Proof.
  apply (proj1 (DataPacket_verify_iff dataPacket40 0)). reflexivity.
Defined.

Lemma forallb_seqZ_true (f : Z → bool) (m n : Z) :
  forallb f (seqZ m n) = true ↔ ∀ i, m ≤ i < m + n → f i = true.
Proof.
  rewrite forallb_forall. setoid_rewrite <- list_elem_of_In.
  by setoid_rewrite elem_of_seqZ.
Qed.

Lemma u64At_nonneg (p : list byte) (i : Z) : 0 ≤ u64At p i.
Proof.
  unfold u64At. change (seqZ 0 8) with [0; 1; 2; 3; 4; 5; 6; 7]. simpl.
  pose proof (byteAt_range p (i + 0)). pose proof (byteAt_range p (i + 1)).
  pose proof (byteAt_range p (i + 2)). pose proof (byteAt_range p (i + 3)).
  pose proof (byteAt_range p (i + 4)). pose proof (byteAt_range p (i + 5)).
  pose proof (byteAt_range p (i + 6)). pose proof (byteAt_range p (i + 7)).
  lia.
Qed.

Lemma u64At_zero (p : list byte) (i : Z) :
  (∀ k, 0 ≤ k < 8 → byteAt p (i + k) = 0) → u64At p i = 0.
Proof.
  intros H. unfold u64At. change (seqZ 0 8) with [0; 1; 2; 3; 4; 5; 6; 7].
  simpl. rewrite !H by lia. done.
Qed.

(** What [IndexPacket::verify] asks of the header, whatever the build. *)
Lemma IndexPacket_verify_header (E57_MAX_DEBUG : bool) (p : list byte)
    (bufferLength totalRecordCount fileSize : Z) :
  IndexPacket_verify E57_MAX_DEBUG p bufferLength totalRecordCount fileSize
  = Ok tt →
  packetType p = E57_INDEX_PACKET
  ∧ sizeof_IndexPacket ≤ packetLogicalLengthMinus1 p + 1
  ∧ (packetLogicalLengthMinus1 p + 1) mod 4 = 0
  ∧ 1 ≤ entryCount p ≤ MAX_ENTRIES
  ∧ indexLevel p ≤ 5
  ∧ (0 < indexLevel p → 2 ≤ entryCount p)
  ∧ (∀ i, 0 ≤ i < sizeof_reserved1 → reserved1 p i = 0)
  ∧ (bufferLength ≤ 0 ∨ packetLogicalLengthMinus1 p + 1 ≤ bufferLength).
Proof.
  unfold IndexPacket_verify. rewrite !check_Ok, packetLength_eq.
  intros (H1 & H2 & H3 & H4 & H5 & H6 & H7 & H8 & H9 & _).
  apply negb_false_iff, Z.eqb_eq in H1. apply negb_false_iff, Z.eqb_eq in H3.
  rewrite negb_false_iff, forallb_seqZ_true in H8.
  pose proof (u16At_range p 4) as Hc. fold (entryCount p) in Hc.
  split_and!; try lia.
  intros i Hi. apply Z.eqb_eq, H8. lia.
Qed.

(** X3.  Built without [E57_MAX_DEBUG], [IndexPacket::verify] accepts a
    packet exactly when its type is [E57_INDEX_PACKET], its declared length
    is a multiple of 4 of at least 32784 bytes (the size of the whole
    struct), it has between 1 and 2048 entries, its level is at most 5,
    a level above 0 comes with at least two entries, the nine reserved
    bytes are zero, and the declared length does not exceed a given buffer
    length.  No byte of the entries is looked at. *)
Theorem IndexPacket_verify_iff (p : list byte)
    (bufferLength totalRecordCount fileSize : Z) :
  IndexPacket_verify false p bufferLength totalRecordCount fileSize = Ok tt
  ↔ packetType p = E57_INDEX_PACKET
    ∧ sizeof_IndexPacket ≤ packetLogicalLengthMinus1 p + 1
    ∧ (packetLogicalLengthMinus1 p + 1) mod 4 = 0
    ∧ 1 ≤ entryCount p ≤ MAX_ENTRIES
    ∧ indexLevel p ≤ 5
    ∧ (0 < indexLevel p → 2 ≤ entryCount p)
    ∧ (∀ i, 0 ≤ i < sizeof_reserved1 → reserved1 p i = 0)
    ∧ (bufferLength ≤ 0 ∨ packetLogicalLengthMinus1 p + 1 ≤ bufferLength).
Proof.
  split; [apply IndexPacket_verify_header|].
  intros (H1 & H2 & H3 & H4 & H5 & H6 & H7 & H8).
  unfold IndexPacket_verify. rewrite !check_Ok, packetLength_eq.
  unfold sizeof_IndexPacket, MAX_ENTRIES in *.
  rewrite u32_small by lia.
  split_and!; rewrite ?negb_false_iff; try done; try lia.
  apply forallb_seqZ_true. intros i Hi. apply Z.eqb_eq, H7. lia.
Qed.

Lemma IndexPacket_verify_iff_witness :
  sizeof_IndexPacket ≤ packetLogicalLengthMinus1 indexPacketFull + 1
  ∧ 1 ≤ entryCount indexPacketFull ≤ MAX_ENTRIES.
Proof.
  destruct (proj1 (IndexPacket_verify_iff indexPacketFull 0 0 0))
    as (_ & H1 & _ & H2 & _); [vm_compute; reflexivity|].
  exact (conj H1 H2).
Defined.

(** X4.  Built with [E57_MAX_DEBUG], [IndexPacket::verify] asks for zero
    bytes from offset [16 + 8 * entryCount] on, which is inside the entries
    of 16 bytes each, and for strictly increasing record numbers.  So the
    packets it accepts have exactly one entry, level 0, and a zero
    [chunkPhysicalOffset] in that entry. *)
Theorem IndexPacket_verify_max_debug_single_entry (p : list byte)
    (bufferLength totalRecordCount fileSize : Z) :
  IndexPacket_verify true p bufferLength totalRecordCount fileSize = Ok tt →
  entryCount p = 1 ∧ indexLevel p = 0 ∧ chunkPhysicalOffset p 0 = 0.
Proof.
  intros Hv.
  pose proof (IndexPacket_verify_header _ _ _ _ _ Hv)
    as (_ & Hlen & _ & Hc & _ & Hlv & _).
  unfold IndexPacket_verify in Hv. rewrite !check_Ok in Hv.
  destruct Hv as (_ & _ & _ & _ & _ & _ & _ & _ & _ & _ & Hpad & Hord & _).
  rewrite negb_false_iff, paddingIsZero_spec in Hpad.
  rewrite negb_false_iff, forallb_seqZ_true in Hord.
  unfold sizeof_IndexPacket, MAX_ENTRIES in *.
  rewrite packetLength_eq, u32_small in Hpad by lia.
  assert (Hone : entryCount p = 1).
  { destruct (decide (entryCount p = 1)) as [|Hne]; [done|exfalso].
    specialize (Hord (entryCount p - 1) ltac:(lia)).
    assert (Hz : chunkRecordNumber p (entryCount p - 1) = 0).
    { apply u64At_zero. intros k Hk. apply Hpad. lia. }
    pose proof (u64At_nonneg p (16 + 16 * (entryCount p - 1 - 1))) as Hprev.
    unfold entryInOrder in Hord. rewrite Hz in Hord.
    fold (chunkRecordNumber p (entryCount p - 1 - 1)) in Hprev.
    rewrite (proj2 (Z.ltb_lt 0 (entryCount p - 1))) in Hord by lia.
    rewrite (proj2 (Z.leb_le 0 _) Hprev) in Hord. simpl in Hord.
    rewrite andb_false_r in Hord. simpl in Hord. discriminate Hord. }
  split_and!; [done| |].
  - pose proof (byteAt_range p 6) as Hr. fold (indexLevel p) in Hr. lia.
  - apply u64At_zero. intros k Hk. apply Hpad. lia.
Qed.

Lemma byteAt_app_zeros (a : list byte) (n : nat) (i : Z) :
  (length a ≤ Z.to_nat i)%nat → byteAt (a ++ zeros n) i = 0.
Proof.
  intros Hi. unfold byteAt, zeros. rewrite lookup_app_r by done.
  destruct (replicate n x00 !! _) as [b|] eqn:Hb; [|done].
  by apply lookup_replicate in Hb as [-> _].
Qed.

Lemma IndexPacket_verify_max_debug_Ok (p : list byte)
    (bufferLength totalRecordCount fileSize : Z) :
  packetType p = E57_INDEX_PACKET →
  sizeof_IndexPacket ≤ packetLogicalLengthMinus1 p + 1 →
  (packetLogicalLengthMinus1 p + 1) mod 4 = 0 →
  1 ≤ entryCount p ≤ MAX_ENTRIES →
  indexLevel p ≤ 5 →
  (0 < indexLevel p → 2 ≤ entryCount p) →
  (∀ i, 0 ≤ i < sizeof_reserved1 → reserved1 p i = 0) →
  bufferLength ≤ 0 ∨ packetLogicalLengthMinus1 p + 1 ≤ bufferLength →
  (∀ i, 16 + 8 * entryCount p ≤ i < packetLogicalLengthMinus1 p + 1 →
        byteAt p i = 0) →
  (∀ i, 0 ≤ i < entryCount p →
        entryInOrder p totalRecordCount fileSize i = true) →
  IndexPacket_verify true p bufferLength totalRecordCount fileSize = Ok tt.
Proof.
  intros H1 H2 H3 H4 H5 H6 H7 H8 Hpad Hord.
  unfold IndexPacket_verify. rewrite !check_Ok, packetLength_eq.
  unfold sizeof_IndexPacket, MAX_ENTRIES in *.
  rewrite u32_small by lia.
  split_and!; rewrite ?negb_false_iff; try done; try lia.
  - apply forallb_seqZ_true. intros i Hi. apply Z.eqb_eq, H7. lia.
  - by apply paddingIsZero_spec.
  - apply forallb_seqZ_true. intros i Hi. apply Hord. lia.
Qed.

Lemma IndexPacket_verify_max_debug_single_entry_witness :
  entryCount indexPacketOneEntry = 1
  ∧ indexLevel indexPacketOneEntry = 0
  ∧ chunkPhysicalOffset indexPacketOneEntry 0 = 0.
Proof.
  apply (IndexPacket_verify_max_debug_single_entry indexPacketOneEntry 0 0 0).
  assert (Hzero : ∀ i, 24 ≤ i → byteAt indexPacketOneEntry i = 0).
  { intros i Hi. destruct (decide (i < 32)) as [Hlt|Hge].
    - assert (i = 24 ∨ i = 25 ∨ i = 26 ∨ i = 27 ∨ i = 28 ∨ i = 29
              ∨ i = 30 ∨ i = 31) as Hc by lia.
      repeat (destruct Hc as [->|Hc]; [reflexivity|]). subst i. reflexivity.
    - apply byteAt_app_zeros.
      change (length (mkIndexPacket 32783 1 0 (zeros 9) [(7, 0)]))
        with 32%nat. lia. }
  apply IndexPacket_verify_max_debug_Ok; try reflexivity.
  - split; [reflexivity|discriminate].
  - discriminate.
  - intros H. discriminate H.
  - intros i Hi. unfold sizeof_reserved1 in Hi.
    assert (i = 0 ∨ i = 1 ∨ i = 2 ∨ i = 3 ∨ i = 4 ∨ i = 5 ∨ i = 6
            ∨ i = 7 ∨ i = 8) as Hc by lia.
    repeat (destruct Hc as [->|Hc]; [reflexivity|]). subst i. reflexivity.
  - left. lia.
  - intros i Hi. apply Hzero.
    change (entryCount indexPacketOneEntry) with 1 in Hi. lia.
  - intros i Hi. change (entryCount indexPacketOneEntry) with 1 in Hi.
    assert (i = 0) as -> by lia. reflexivity.
Defined.

(** ** [getBytestream] on any packet *)

Lemma bsbLength_range (p : list byte) (i : Z) : 0 ≤ bsbLength p i < 65536.
Proof. apply u16At_range. Qed.

Lemma bytestreamCount_range (p : list byte) : 0 ≤ bytestreamCount p < 65536.
Proof. apply u16At_range. Qed.

Lemma lengthSum_range_Z (p : list byte) (n : Z) :
  0 ≤ n → 0 ≤ lengthSum p n ≤ 65535 * n.
Proof.
  intros Hn. pose proof (lengthSum_range p (Z.to_nat n)) as H.
  by rewrite Z2Nat.id in H by lia.
Qed.

Lemma lengthSum_succ (p : list byte) (n : Z) :
  0 ≤ n → lengthSum p (n + 1) = lengthSum p n + bsbLength p n.
Proof.
  intros Hn. rewrite <- (Z2Nat.id n) at 1 2 3 by lia.
  replace (Z.of_nat (Z.to_nat n) + 1) with (Z.of_nat (S (Z.to_nat n)))
    by lia.
  rewrite lengthSum_S. by rewrite Z2Nat.id by lia.
Qed.

Lemma getBytestream_Ok_iff (p : list byte) (n off len : Z) :
  0 ≤ n →
  DataPacket_getBytestream p n = Ok (off, len)
  ↔ packetType p = E57_DATA_PACKET
    ∧ n < bytestreamCount p
    ∧ off = sizeof_DataPacketHeader + 2 * bytestreamCount p + lengthSum p n
    ∧ len = bsbLength p n
    ∧ off + len ≤ packetLogicalLengthMinus1 p + 1.
Proof.
  intros Hn. unfold DataPacket_getBytestream.
  pose proof (bytestreamCount_range p) as Hc.
  pose proof (bsbLength_range p n) as Hb.
  pose proof (lengthSum_range_Z p n Hn) as Hs.
  fold (packetLength p). rewrite packetLength_eq.
  destruct (Z.eqb_spec (packetType p) E57_DATA_PACKET) as [Hty|Hty];
    simpl; [|split; [done|tauto]].
  unfold check at 1.
  destruct (Z.leb_spec (bytestreamCount p) n) as [Hge|Hlt];
    [split; [done|lia]|].
  rewrite sumStreamLengths_exact by lia.
  unfold sizeof_DataPacketHeader in *.
  rewrite usize_small by lia. unfold check.
  case_match eqn:Hcmp.
  - split; [done|]. intros (_ & _ & -> & -> & Hend). lia.
  - split.
    + intros [= <- <-]. split_and!; try done; lia.
    + intros (_ & _ & -> & -> & _). done.
Qed.

Lemma getBytestream_Throw (p : list byte) (n : Z) (e : exn) :
  DataPacket_getBytestream p n = Throw e →
  (e = BadFormat ∧ packetType p ≠ E57_DATA_PACKET)
  ∨ (e = InternalError ∧ packetType p = E57_DATA_PACKET).
Proof.
  unfold DataPacket_getBytestream.
  destruct (Z.eqb_spec (packetType p) E57_DATA_PACKET) as [Hty|Hty]; simpl.
  - unfold check. repeat case_match; naive_solver.
  - intros [= <-]. by left.
Qed.

(** X5.  Whatever the packet, verified or not, a view that
    [getBytestream(n)] returns belongs to a stream the packet declares
    ([n < bytestreamCount]), starts after the length table and ends within
    the declared packet length, hence within the 65536 bytes of the
    struct; and what [getBytestream] throws is a bad-packet error exactly
    on a packet of another type, an internal error otherwise. *)
Theorem getBytestream_view_is_inside_packet (p : list byte) (n : Z) :
  0 ≤ n →
  (∀ off len,
     DataPacket_getBytestream p n = Ok (off, len) →
     n < bytestreamCount p
     ∧ sizeof_DataPacketHeader + 2 * bytestreamCount p ≤ off
     ∧ 0 ≤ len
     ∧ off + len ≤ packetLogicalLengthMinus1 p + 1 ≤ E57_DATA_PACKET_MAX)
  ∧ (∀ e,
       DataPacket_getBytestream p n = Throw e →
       (e = BadFormat ∧ packetType p ≠ E57_DATA_PACKET)
       ∨ (e = InternalError ∧ packetType p = E57_DATA_PACKET)).
Proof.
  intros Hn. split; [|apply getBytestream_Throw].
  intros off len (_ & Hlt & -> & -> & Hend)%getBytestream_Ok_iff; [|done].
  pose proof (bsbLength_range p n). pose proof (lengthSum_range_Z p n Hn).
  pose proof (packetLength_range p) as Hr. rewrite packetLength_eq in Hr.
  unfold E57_DATA_PACKET_MAX. lia.
Qed.

Lemma getBytestream_view_is_inside_packet_witness :
  20 + 20 ≤ packetLogicalLengthMinus1 dataPacket40 + 1 ≤ E57_DATA_PACKET_MAX.
Proof.
  destruct (getBytestream_view_is_inside_packet dataPacket40 1) as [H _];
    [lia|].
  apply (H 20 20). reflexivity.
Defined.

(** X6.  On a packet that [DataPacket::verify] accepts the streams lie side
    by side: stream 0 starts right after the length table, stream [n + 1]
    starts where stream [n] ends, with the length that
    [getBytestreamBufferLength(n)] returns, and the last stream ends at
    most 3 bytes before the declared end of the packet. *)
Theorem bytestreams_are_adjacent (p : list byte) (bufferLength n : Z) :
  DataPacket_verify p bufferLength = Ok tt →
  0 ≤ n < bytestreamCount p →
  ∃ off len,
    DataPacket_getBytestream p n = Ok (off, len)
    ∧ DataPacket_getBytestreamBufferLength p n = Ok len
    ∧ (n = 0 → off = sizeof_DataPacketHeader + 2 * bytestreamCount p)
    ∧ (n + 1 < bytestreamCount p →
       ∃ len', DataPacket_getBytestream p (n + 1) = Ok (off + len, len'))
    ∧ (n + 1 = bytestreamCount p →
       packetLogicalLengthMinus1 p + 1 - 3 ≤ off + len
       ≤ packetLogicalLengthMinus1 p + 1).
Proof.
  intros ([Hty _ _ _ _ _] & Hlen & _)%DataPacket_verify_Ok Hn.
  rewrite packetLength_eq in Hlen. unfold neededLength in Hlen.
  assert (Hview : ∀ m, 0 ≤ m < bytestreamCount p →
            DataPacket_getBytestream p m
            = Ok (sizeof_DataPacketHeader + 2 * bytestreamCount p
                  + lengthSum p m, bsbLength p m)).
  { intros m Hm. apply getBytestream_Ok_iff; [lia|].
    split_and!; try done; try lia.
    rewrite <- Z.add_assoc, <- lengthSum_succ by lia.
    pose proof (lengthSum_mono p (m + 1) (bytestreamCount p)). lia. }
  eexists _, _. split_and!; [by apply Hview| | | |].
  - unfold DataPacket_getBytestreamBufferLength. by rewrite Hview.
  - intros ->. unfold lengthSum. change (seqZ 0 0) with (@nil Z). simpl. lia.
  - intros Hnext. eexists. rewrite Hview by lia.
    rewrite lengthSum_succ by lia. do 2 f_equal. lia.
  - intros Hlast. rewrite <- Z.add_assoc, <- lengthSum_succ, Hlast by lia.
    lia.
Qed.

Lemma bytestreams_are_adjacent_witness :
  ∃ off len,
    DataPacket_getBytestream dataPacket40 0 = Ok (off, len)
    ∧ DataPacket_getBytestreamBufferLength dataPacket40 0 = Ok len
    ∧ (0 = 0 → off = sizeof_DataPacketHeader
                     + 2 * bytestreamCount dataPacket40)
    ∧ (0 + 1 < bytestreamCount dataPacket40 →
       ∃ len',
         DataPacket_getBytestream dataPacket40 (0 + 1) = Ok (off + len, len'))
    ∧ (0 + 1 = bytestreamCount dataPacket40 →
       packetLogicalLengthMinus1 dataPacket40 + 1 - 3 ≤ off + len
       ≤ packetLogicalLengthMinus1 dataPacket40 + 1).
Proof.
  apply (bytestreams_are_adjacent dataPacket40 0 0).
  - reflexivity.
  - vm_compute. split; [discriminate|reflexivity].
Defined.

(** ** The second byte of a packet *)

Lemma byteAt_insert_ne (p : list byte) (k : nat) (b : byte) (i : Z) :
  Z.to_nat i ≠ k → byteAt (<[k := b]> p) i = byteAt p i.
Proof. intros. unfold byteAt. by rewrite list_lookup_insert_ne. Qed.

Lemma u16At_insert_1 (p : list byte) (b : byte) (i : Z) :
  2 ≤ i → u16At (<[1%nat := b]> p) i = u16At p i.
Proof. intros. unfold u16At. rewrite !byteAt_insert_ne by lia. done. Qed.

Lemma u64At_insert_1 (p : list byte) (b : byte) (i : Z) :
  2 ≤ i → u64At (<[1%nat := b]> p) i = u64At p i.
Proof.
  intros. unfold u64At. change (seqZ 0 8) with [0; 1; 2; 3; 4; 5; 6; 7].
  simpl. rewrite !byteAt_insert_ne by lia. done.
Qed.

Lemma packetType_insert_1 (p : list byte) (b : byte) :
  packetType (<[1%nat := b]> p) = packetType p.
Proof. unfold packetType. by rewrite byteAt_insert_ne by lia. Qed.

Lemma packetLength_insert_1 (p : list byte) (b : byte) :
  packetLength (<[1%nat := b]> p) = packetLength p.
Proof.
  unfold packetLength, packetLogicalLengthMinus1.
  by rewrite u16At_insert_1 by lia.
Qed.

Lemma paddingIsZero_insert_1 (p : list byte) (b : byte) (from to : Z) :
  2 ≤ from →
  paddingIsZero (<[1%nat := b]> p) from to = paddingIsZero p from to.
Proof.
  intros. unfold paddingIsZero. apply forallb_seqZ_ext. intros i Hi.
  by rewrite byteAt_insert_ne by lia.
Qed.

Lemma foldl_ext_elem {A B} (f g : A → B → A) (l : list B) (a : A) :
  (∀ a x, x ∈ l → f a x = g a x) → foldl f a l = foldl g a l.
Proof.
  revert a. induction l as [|x l IH]; intros a H; simpl; [done|].
  rewrite H by apply list_elem_of_here.
  apply IH. intros a' y Hy. apply H. by apply list_elem_of_further.
Qed.

Lemma sumStreamLengths_insert_1 (p : list byte) (b : byte) (n : Z) :
  sumStreamLengths (<[1%nat := b]> p) n = sumStreamLengths p n.
Proof.
  unfold sumStreamLengths. apply foldl_ext_elem.
  intros a i Hi%elem_of_seqZ. unfold bsbLength, sizeof_DataPacketHeader.
  by rewrite u16At_insert_1 by lia.
Qed.

(** X7.  No [verify] method looks at the second byte of the packet
    ([packetFlags] of data and index packets, [reserved1] of the empty
    packet header): with any value there, the outcome is the same. *)
Theorem verify_ignores_second_byte (E57_MAX_DEBUG : bool) (p : list byte)
    (b : byte) (bufferLength totalRecordCount fileSize : Z) :
  DataPacket_verify (<[1%nat := b]> p) bufferLength
  = DataPacket_verify p bufferLength
  ∧ IndexPacket_verify E57_MAX_DEBUG (<[1%nat := b]> p) bufferLength
      totalRecordCount fileSize
    = IndexPacket_verify E57_MAX_DEBUG p bufferLength totalRecordCount fileSize
  ∧ EmptyPacketHeader_verify (<[1%nat := b]> p) bufferLength
    = EmptyPacketHeader_verify p bufferLength.
Proof.
  split_and!.
  - unfold DataPacket_verify.
    assert (Hh : DataPacketHeader_verify (<[1%nat := b]> p) bufferLength
                 = DataPacketHeader_verify p bufferLength).
    { unfold DataPacketHeader_verify, bytestreamCount.
      by rewrite packetType_insert_1, packetLength_insert_1,
        u16At_insert_1 by lia. }
    rewrite Hh.
    destruct (DataPacketHeader_verify p bufferLength) as [[]|e] eqn:Hv;
      [|done].
    apply DataPacketHeader_verify_Ok in Hv.
    destruct (DataPacket_needed_exact p bufferLength Hv) as [Hn _].
    pose proof (neededLength_min p) as Hmin.
    unfold neededLength, sizeof_DataPacketHeader in Hmin.
    assert (Hneed : DataPacket_needed (<[1%nat := b]> p)
                    = DataPacket_needed p).
    { unfold DataPacket_needed, bytestreamCount.
      by rewrite u16At_insert_1, sumStreamLengths_insert_1 by lia. }
    rewrite Hneed, packetLength_insert_1, paddingIsZero_insert_1; [done|].
    rewrite Hn. unfold sizeof_DataPacketHeader. lia.
  - unfold IndexPacket_verify, entryCount, indexLevel.
    pose proof (u16At_range p 4) as Hc.
    rewrite packetType_insert_1, packetLength_insert_1, u16At_insert_1,
      byteAt_insert_ne by lia.
    rewrite (forallb_seqZ_ext
               (fun i => reserved1 (<[1%nat := b]> p) i =? 0)
               (fun i => reserved1 p i =? 0))
      by (intros i Hi; unfold reserved1; by rewrite byteAt_insert_ne by lia).
    rewrite paddingIsZero_insert_1 by (rewrite u32_small; lia).
    rewrite (forallb_seqZ_ext
               (entryInOrder (<[1%nat := b]> p) totalRecordCount fileSize)
               (entryInOrder p totalRecordCount fileSize)); [done|].
    intros i Hi. unfold entryInOrder, chunkRecordNumber, chunkPhysicalOffset.
    rewrite !(u64At_insert_1 p b (16 + 16 * i)),
      !(u64At_insert_1 p b (16 + 16 * i + 8)) by lia.
    destruct (Z.ltb_spec 0 i) as [Hpos|Hzero].
    + rewrite !(u64At_insert_1 p b (16 + 16 * (i - 1))),
        !(u64At_insert_1 p b (16 + 16 * (i - 1) + 8)) by lia. done.
    + simpl. done.
  - unfold EmptyPacketHeader_verify.
    by rewrite packetType_insert_1, packetLength_insert_1.
Qed.

(** ** Taking [readPacket] and [lock] apart *)

Lemma verifyPacket_Throw (E57_MAX_DEBUG : bool) (type : Z)
    (buffer : list byte) (L : Z) (e : exn) :
  verifyPacket E57_MAX_DEBUG type buffer L = Throw e →
  e = BadFormat ∨ (e = InternalError ∧ (type < 0 ∨ 2 < type)).
Proof.
  unfold verifyPacket, E57_DATA_PACKET, E57_INDEX_PACKET, E57_EMPTY_PACKET.
  repeat case_match.
  - intros ?%DataPacket_verify_Throw. by left.
  - intros ?%IndexPacket_verify_Throw. by left.
  - intros ?%EmptyPacketHeader_verify_Throw. by left.
  - intros [= <-]. right. split; [done|lia].
Qed.

Lemma verifyPacket_Ok_length (E57_MAX_DEBUG : bool) (type : Z)
    (buffer : list byte) (L : Z) :
  0 < L → verifyPacket E57_MAX_DEBUG type buffer L = Ok tt →
  4 ≤ packetLength buffer ≤ L ∧ packetType buffer = type.
Proof.
  intros HL. unfold verifyPacket. repeat case_match; [| | |done].
  - intros ([Hty Hmin _ Hbuf _ _] & _)%DataPacket_verify_Ok.
    unfold sizeof_DataPacketHeader in *. lia.
  - intros (Hty & Hlen & _ & _ & _ & _ & _ & Hbuf)%IndexPacket_verify_header.
    rewrite packetLength_eq. unfold sizeof_IndexPacket, MAX_ENTRIES in *.
    lia.
  - unfold EmptyPacketHeader_verify, sizeof_EmptyPacketHeader.
    rewrite !check_Ok. intros (Hty & Hmin & _ & Hbuf & _).
    apply negb_false_iff in Hty. lia.
Qed.

Lemma readPacket_Ok_inv (E57_MAX_DEBUG : bool) (c : PacketReadCache)
    (i : nat) (offset : Z) (c' : PacketReadCache) :
  readPacket E57_MAX_DEBUG c i offset = (c', Ok tt) →
  ∃ e0 header bytes,
    entries_ c !! i = Some e0
    ∧ bytesAt (contents (cFile_ c)) offset sizeof_EmptyPacketHeader
      = Some header
    ∧ bytesAt (contents (cFile_ c)) offset (packetLength header) = Some bytes
    ∧ verifyPacket E57_MAX_DEBUG (packetType header)
        (store (buffer_ e0) bytes) (packetLength header) = Ok tt
    ∧ c' = {| lockCount_ := lockCount_ c;
              useCount_ := u32 (useCount_ c + 1);
              cFile_ := {| contents := contents (cFile_ c);
                           position := offset + packetLength header |};
              entries_ :=
                <[i := {| logicalOffset_ := offset;
                          buffer_ := store (buffer_ e0) bytes;
                          lastUsed_ := u32 (useCount_ c + 1) |}]>
                  (entries_ c) |}.
Proof.
  unfold readPacket. rewrite CheckedFile_read_seek.
  destruct (bytesAt _ offset sizeof_EmptyPacketHeader) as [header|] eqn:Hh;
    [|done].
  rewrite packetLength_too_long_never.
  destruct (entries_ c !! i) as [e0|] eqn:He; [|done].
  rewrite CheckedFile_read_seek. simpl contents.
  destruct (bytesAt _ offset (packetLength header)) as [bytes|] eqn:Hb;
    [|done].
  destruct (verifyPacket _ _ _ _) as [[]|] eqn:Hv; [|done].
  intros [= <-]. by eexists _, _, _.
Qed.

Lemma readPacket_Throw_inv (E57_MAX_DEBUG : bool) (c : PacketReadCache)
    (i : nat) (offset : Z) (c' : PacketReadCache) (e : exn) :
  readPacket E57_MAX_DEBUG c i offset = (c', Throw e) →
  lockCount_ c' = lockCount_ c
  ∧ useCount_ c' = useCount_ c
  ∧ contents (cFile_ c') = contents (cFile_ c)
  ∧ (entries_ c' = entries_ c
     ∨ ∃ e0 bytes,
         entries_ c !! i = Some e0
         ∧ (length bytes ≤ Z.to_nat E57_DATA_PACKET_MAX)%nat
         ∧ entries_ c'
           = <[i := {| logicalOffset_ := logicalOffset_ e0;
                       buffer_ := store (buffer_ e0) bytes;
                       lastUsed_ := lastUsed_ e0 |}]> (entries_ c))
  ∧ (e = BadFormat ∨ e = InternalError
     ∨ e = E57_EXCEPTION2 E57_ERROR_READ_FAILED
     ∨ (e = std_out_of_range ∧ entries_ c !! i = None)).
Proof.
  unfold readPacket. rewrite CheckedFile_read_seek.
  destruct (bytesAt _ offset sizeof_EmptyPacketHeader) as [header|] eqn:Hh.
  2:{ intros [= <- <-]. simpl. split_and!; auto. }
  rewrite packetLength_too_long_never.
  destruct (entries_ c !! i) as [e0|] eqn:He.
  2:{ intros [= <- <-]. simpl. split_and!; auto 10. }
  rewrite CheckedFile_read_seek. simpl contents.
  destruct (bytesAt _ offset (packetLength header)) as [bytes|] eqn:Hb.
  2:{ intros [= <- <-]. simpl. split_and!; auto. }
  destruct (verifyPacket _ _ _ _) as [[]|e'] eqn:Hv; [done|].
  intros [= <- <-]. simpl. split_and!; [done..| |].
  - right. exists e0, bytes. split_and!; [done| |done].
    apply bytesAt_length_le in Hb. pose proof (packetLength_range header).
    unfold E57_DATA_PACKET_MAX. lia.
  - apply verifyPacket_Throw in Hv. destruct Hv as [->|[-> _]]; auto.
Qed.

Lemma findMatch_Some_iff (offset : Z) (es : list CacheEntry) (k i : nat) :
  findMatch offset es k = Some i
  ↔ (k ≤ i)%nat
    ∧ (∃ e, es !! (i - k)%nat = Some e ∧ logicalOffset_ e = offset)
    ∧ (∀ j e, (j < i - k)%nat → es !! j = Some e →
              logicalOffset_ e ≠ offset).
Proof.
  revert k. induction es as [|e es IH]; intros k; simpl.
  - split; [done|]. by intros (_ & (e & He & _) & _).
  - destruct (Z.eqb_spec offset (logicalOffset_ e)) as [->|Hne].
    + split.
      * intros [= <-]. rewrite Nat.sub_diag. split_and!; [lia|eauto|].
        intros j e' Hj. lia.
      * intros (Hle & _ & Hfirst).
        destruct (decide (i = k)) as [->|Hik]; [done|].
        destruct (Hfirst 0%nat e); [lia|done|done].
    + rewrite IH. split.
      * intros (Hle & (e' & He' & Hoff) & Hfirst). split_and!; [lia| |].
        -- exists e'. split; [|done].
           replace (i - k)%nat with (S (i - S k)) by lia. done.
        -- intros [|j] e'' Hj; simpl; [by intros [= <-]|].
           apply Hfirst. lia.
      * intros (Hle & (e' & He' & Hoff) & Hfirst).
        assert (i ≠ k).
        { intros ->. rewrite Nat.sub_diag in He'. simpl in He'.
          injection He' as <-. done. }
        replace (i - k)%nat with (S (i - S k)) in * by lia.
        split_and!; [lia|by exists e'|].
        intros j e'' Hj Hl. apply (Hfirst (S j) e''); [lia|done].
Qed.

Lemma lock_hit (E57_MAX_DEBUG : bool) (c : PacketReadCache) (offset : Z)
    (i : nat) :
  lockCount_ c ≤ 0 → offset ≠ 0 →
  findMatch offset (entries_ c) 0 = Some i →
  ∃ e, entries_ c !! i = Some e
       ∧ logicalOffset_ e = offset
       ∧ lock E57_MAX_DEBUG c offset
         = ({| lockCount_ := u32 (lockCount_ c + 1);
               useCount_ := u32 (useCount_ c + 1);
               cFile_ := cFile_ c;
               entries_ :=
                 <[i := {| logicalOffset_ := offset;
                           buffer_ := buffer_ e;
                           lastUsed_ := u32 (useCount_ c + 1) |}]>
                   (entries_ c) |},
            Ok ({| cacheIndex_ := i |}, buffer_ e)).
Proof.
  intros Hlc Hoff Hfind. unfold lock.
  rewrite (proj2 (Z.ltb_ge _ _) Hlc), (proj2 (Z.eqb_neq _ _) Hoff), Hfind.
  apply findMatch_Some in Hfind as (_ & e & He & Hoe).
  rewrite Nat.sub_0_r in He. rewrite He. exists e.
  split_and!; [done..|]. by rewrite Hoe.
Qed.

Lemma lock_Ok_inv (E57_MAX_DEBUG : bool) (c : PacketReadCache) (offset : Z)
    (c1 : PacketReadCache) (g : PacketLock) (pkt : list byte) :
  lock E57_MAX_DEBUG c offset = (c1, Ok (g, pkt)) →
  lockCount_ c ≤ 0 ∧ offset ≠ 0
  ∧ ∃ i e1,
      g = {| cacheIndex_ := i |}
      ∧ (i < length (entries_ c))%nat
      ∧ entries_ c1 = <[i := e1]> (entries_ c)
      ∧ logicalOffset_ e1 = offset
      ∧ buffer_ e1 = pkt
      ∧ lastUsed_ e1 = u32 (useCount_ c + 1)
      ∧ useCount_ c1 = u32 (useCount_ c + 1)
      ∧ lockCount_ c1 = u32 (lockCount_ c + 1)
      ∧ contents (cFile_ c1) = contents (cFile_ c)
      ∧ ((∃ e, entries_ c !! i = Some e
               ∧ logicalOffset_ e = offset
               ∧ buffer_ e = pkt
               ∧ cFile_ c1 = cFile_ c
               ∧ ∀ j e', (j < i)%nat → entries_ c !! j = Some e' →
                         logicalOffset_ e' ≠ offset)
         ∨ ((∀ j e', entries_ c !! j = Some e' →
                     logicalOffset_ e' ≠ offset)
            ∧ firstMinimum (entries_ c) i
            ∧ ∃ e0 header bytes,
                entries_ c !! i = Some e0
                ∧ bytesAt (contents (cFile_ c)) offset
                    sizeof_EmptyPacketHeader = Some header
                ∧ bytesAt (contents (cFile_ c)) offset (packetLength header)
                  = Some bytes
                ∧ verifyPacket E57_MAX_DEBUG (packetType header)
                    (store (buffer_ e0) bytes) (packetLength header) = Ok tt
                ∧ pkt = store (buffer_ e0) bytes)).
Proof.
  intros Hlock.
  assert (Hlc : lockCount_ c ≤ 0).
  { destruct (Z.ltb_spec 0 (lockCount_ c)) as [Hpos|]; [|done].
    rewrite lock_locked in Hlock by done. done. }
  assert (Hoff : offset ≠ 0).
  { intros ->. unfold lock in Hlock.
    rewrite (proj2 (Z.ltb_ge _ _) Hlc) in Hlock. done. }
  split_and!; [done..|].
  destruct (findMatch offset (entries_ c) 0) as [i|] eqn:Hfind.
  - destruct (lock_hit E57_MAX_DEBUG c offset i Hlc Hoff Hfind)
      as (e & He & Hoe & Hl).
    rewrite Hl in Hlock. injection Hlock as <- <- <-.
    apply findMatch_Some_iff in Hfind as (_ & _ & Hfirst).
    eexists i, _. simpl. split_and!; try done.
    { by eapply lookup_lt_Some. }
    left. exists e. split_and!; try done.
    intros j e' Hj. apply Hfirst. lia.
  - unfold lock in Hlock.
    rewrite (proj2 (Z.ltb_ge _ _) Hlc), (proj2 (Z.eqb_neq _ _) Hoff), Hfind
      in Hlock.
    assert (Hmiss := proj1 (findMatch_None offset (entries_ c) 0) Hfind).
    destruct (findOldest (entries_ c)) as [i|e'] eqn:Hfo; [|done].
    assert (Hne : entries_ c ≠ [])
      by (intros Hnil; rewrite Hnil in Hfo; done).
    destruct (findOldest_firstMinimum _ Hne) as (i' & Hfo' & Hmin).
    rewrite Hfo in Hfo'. injection Hfo' as <-.
    unfold lock_fill in Hlock.
    destruct (readPacket E57_MAX_DEBUG c i offset) as [c' [[]|e']] eqn:Hr;
      [|done].
    apply readPacket_Ok_inv in Hr
      as (e0 & header & bytes & He0 & Hh & Hb & Hv & ->).
    simpl in Hlock.
    rewrite list_lookup_insert_eq in Hlock by (by eapply lookup_lt_Some).
    injection Hlock as <- <- <-.
    eexists i, _. simpl. split_and!; try done.
    { by eapply lookup_lt_Some. }
    right. split_and!; [done|done|]. by eexists e0, header, bytes.
Qed.

Lemma lock_Throw_inv (E57_MAX_DEBUG : bool) (c : PacketReadCache)
    (offset : Z) (c1 : PacketReadCache) (e : exn) :
  lock E57_MAX_DEBUG c offset = (c1, Throw e) →
  lockCount_ c1 = lockCount_ c
  ∧ useCount_ c1 = useCount_ c
  ∧ contents (cFile_ c1) = contents (cFile_ c)
  ∧ (entries_ c1 = entries_ c
     ∨ ∃ i e0 bytes,
         entries_ c !! i = Some e0
         ∧ (length bytes ≤ Z.to_nat E57_DATA_PACKET_MAX)%nat
         ∧ entries_ c1
           = <[i := {| logicalOffset_ := logicalOffset_ e0;
                       buffer_ := store (buffer_ e0) bytes;
                       lastUsed_ := lastUsed_ e0 |}]> (entries_ c))
  ∧ (e = BadFormat ∨ e = InternalError
     ∨ e = E57_EXCEPTION2 E57_ERROR_READ_FAILED
     ∨ (e = std_out_of_range ∧ entries_ c = [])).
Proof.
  intros Hlock.
  destruct (Z.ltb_spec 0 (lockCount_ c)) as [Hpos|Hlc].
  { rewrite lock_locked in Hlock by done. injection Hlock as <- <-.
    split_and!; auto. }
  destruct (decide (offset = 0)) as [->|Hoff].
  { unfold lock in Hlock. rewrite (proj2 (Z.ltb_ge _ _) Hlc) in Hlock.
    injection Hlock as <- <-. split_and!; auto. }
  destruct (findMatch offset (entries_ c) 0) as [i|] eqn:Hfind.
  { destruct (lock_hit E57_MAX_DEBUG c offset i Hlc Hoff Hfind)
      as (e' & _ & _ & Hl). rewrite Hl in Hlock. done. }
  unfold lock in Hlock.
  rewrite (proj2 (Z.ltb_ge _ _) Hlc), (proj2 (Z.eqb_neq _ _) Hoff), Hfind
    in Hlock.
  destruct (findOldest (entries_ c)) as [i|e'] eqn:Hfo.
  2:{ injection Hlock as <- <-. unfold findOldest in Hfo.
      destruct (entries_ c) as [|e0 es]; [|done].
      injection Hfo as <-. split_and!; auto 10. }
  assert (Hne : entries_ c ≠ [])
    by (intros Hnil; rewrite Hnil in Hfo; done).
  destruct (findOldest_firstMinimum _ Hne) as (i' & Hfo' & (ei & Hei & _)).
  rewrite Hfo in Hfo'. injection Hfo' as <-.
  unfold lock_fill in Hlock.
  destruct (readPacket E57_MAX_DEBUG c i offset) as [c' [[]|e']] eqn:Hr.
  - apply readPacket_Ok_inv in Hr as (e0 & header & bytes & _ & _ & _ & _ & ->).
    simpl in Hlock.
    rewrite list_lookup_insert_eq in Hlock by (by eapply lookup_lt_Some).
    done.
  - injection Hlock as <- <-.
    apply readPacket_Throw_inv in Hr as (H1 & H2 & H3 & H4 & H5).
    split_and!; [done..| |].
    + destruct H4 as [H4|(e0 & bytes & ? & ? & ?)]; [by left|].
      right. by exists i, e0, bytes.
    + destruct H5 as [?|[?|[?|[_ Hnone]]]]; auto. congruence.
Qed.

(** ** Cache hits *)

(** X8.  A [lock] at an offset that a slot holds does no I/O and changes
    no buffer: the file object is untouched, the first slot holding the
    offset gets the next stamp, the use count and the lock count go up by
    one, and the buffer of that slot is published. *)
Theorem lock_hit_reads_nothing (E57_MAX_DEBUG : bool) (c : PacketReadCache)
    (offset : Z) (j : nat) (ej : CacheEntry) :
  lockCount_ c = 0 → offset ≠ 0 →
  entries_ c !! j = Some ej → logicalOffset_ ej = offset →
  ∃ i e,
    (i ≤ j)%nat
    ∧ entries_ c !! i = Some e
    ∧ logicalOffset_ e = offset
    ∧ (∀ k e', (k < i)%nat → entries_ c !! k = Some e' →
               logicalOffset_ e' ≠ offset)
    ∧ lock E57_MAX_DEBUG c offset
      = ({| lockCount_ := 1;
            useCount_ := u32 (useCount_ c + 1);
            cFile_ := cFile_ c;
            entries_ :=
              <[i := {| logicalOffset_ := offset;
                        buffer_ := buffer_ e;
                        lastUsed_ := u32 (useCount_ c + 1) |}]>
                (entries_ c) |},
         Ok ({| cacheIndex_ := i |}, buffer_ e)).
Proof.
  intros Hlc Hoff Hj Hoj.
  destruct (findMatch offset (entries_ c) 0) as [i|] eqn:Hfind.
  2:{ destruct (proj1 (findMatch_None _ _ _) Hfind j ej Hj Hoj). }
  destruct (lock_hit E57_MAX_DEBUG c offset i ltac:(lia) Hoff Hfind)
    as (e & He & Hoe & Hl).
  apply findMatch_Some_iff in Hfind as (_ & _ & Hfirst).
  exists i, e. rewrite Hlc in Hl. split_and!; try done.
  - destruct (decide (i ≤ j)%nat) as [|Hgt]; [done|].
    destruct (Hfirst j ej); [lia|done|done].
  - intros k e' Hk. apply Hfirst. lia.
Qed.

Lemma lock_hit_reads_nothing_witness :
  ∃ i e,
    (i ≤ 0)%nat
    ∧ entries_ (set_entries oneSlotCache
                  [{| logicalOffset_ := 4; buffer_ := emptyPacket4;
                      lastUsed_ := 7 |}]) !! i = Some e
    ∧ logicalOffset_ e = 4.
Proof.
  destruct (lock_hit_reads_nothing false
              (set_entries oneSlotCache
                 [{| logicalOffset_ := 4; buffer_ := emptyPacket4;
                     lastUsed_ := 7 |}])
              4 0%nat
              {| logicalOffset_ := 4; buffer_ := emptyPacket4;
                 lastUsed_ := 7 |})
    as (i & e & H1 & H2 & H3 & _); [reflexivity|discriminate|reflexivity..|].
  by exists i, e.
Defined.

(** X9.  After a successful [lock] and the release of its guard, a [lock]
    at the same offset is a hit: it succeeds with a guard for the same
    slot and publishes the same bytes, the file object is not touched and
    no buffer changes. *)
Theorem lock_again_is_a_hit (E57_MAX_DEBUG : bool) (c : PacketReadCache)
    (offset : Z) (c1 : PacketReadCache) (g : PacketLock) (pkt : list byte) :
  lockCount_ c = 0 →
  lock E57_MAX_DEBUG c offset = (c1, Ok (g, pkt)) →
  ∃ c3,
    lock E57_MAX_DEBUG (PacketLock_destroy g c1).1 offset
    = (c3, Ok (g, pkt))
    ∧ cFile_ c3 = cFile_ c1
    ∧ buffer_ <$> entries_ c3 = buffer_ <$> entries_ c1.
Proof.
  intros Hlc0 Hlock.
  apply lock_Ok_inv in Hlock
    as (_ & Hoff & i & e1 & -> & Hi & Hes & Hoe & Hbuf & _ & _ & Hlc1 & _ & Hcase).
  rewrite Hlc0 in Hlc1. change (u32 (0 + 1)) with 1 in Hlc1.
  unfold PacketLock_destroy. rewrite unlock_locked by done. simpl.
  assert (He1 : entries_ c1 !! i = Some e1)
    by (rewrite Hes; by apply list_lookup_insert_eq).
  assert (Hfind : findMatch offset (entries_ (set_lockCount c1 0)) 0 = Some i).
  { apply findMatch_Some_iff. rewrite Nat.sub_0_r. simpl.
    split_and!; [lia|by exists e1|].
    intros j e' Hj He'. rewrite Hes, list_lookup_insert_ne in He' by lia.
    destruct Hcase as [(_ & _ & _ & _ & _ & Hfirst)|(Hmiss & _)].
    - apply (Hfirst j e'); [lia|done].
    - by apply (Hmiss j e'). }
  destruct (lock_hit E57_MAX_DEBUG (set_lockCount c1 0) offset i)
    as (e & He & _ & Hl); [simpl; lia|done|done|].
  simpl in He. rewrite He1 in He. injection He as <-.
  rewrite Hl. eexists. split_and!; [by rewrite Hbuf|done|].
  simpl. rewrite list_fmap_insert. simpl.
  apply list_insert_id. rewrite list_lookup_fmap, He1. simpl.
  by rewrite ?Hbuf.
Qed.

Lemma lock_again_is_a_hit_witness :
  ∃ c3,
    lock false
      (PacketLock_destroy {| cacheIndex_ := 0 |}
         (lock false
            (set_entries oneSlotCache
               [{| logicalOffset_ := 0; buffer_ := zeros 8;
                   lastUsed_ := 0 |}]) 4).1).1 4
    = (c3, Ok ({| cacheIndex_ := 0 |}, emptyPacket4 ++ zeros 4)).
Proof.
  destruct (lock_again_is_a_hit false
              (set_entries oneSlotCache
                 [{| logicalOffset_ := 0; buffer_ := zeros 8;
                     lastUsed_ := 0 |}])
              4
              (lock false
                 (set_entries oneSlotCache
                    [{| logicalOffset_ := 0; buffer_ := zeros 8;
                        lastUsed_ := 0 |}]) 4).1
              {| cacheIndex_ := 0 |} (emptyPacket4 ++ zeros 4))
    as (c3 & H & _); [reflexivity|vm_compute; reflexivity|].
  by exists c3.
Defined.

(** ** Cache misses *)

Lemma bytesAt_byteAt (cs : list byte) (offset n : Z) (bytes : list byte)
    (i : Z) :
  0 ≤ offset → bytesAt cs offset n = Some bytes → 0 ≤ i < n →
  byteAt bytes i = byteAt cs (offset + i).
Proof.
  unfold bytesAt. case_match; [|done]. intros Hoff [= <-] Hi.
  unfold byteAt. rewrite lookup_take_lt, lookup_drop by lia.
  by replace (Z.to_nat offset + Z.to_nat i)%nat with (Z.to_nat (offset + i))
    by lia.
Qed.

(** X10.  A [lock] that succeeds at an offset no slot holds publishes a
    buffer that starts with the bytes the file holds at that offset, as
    many as the packet declares, and that the [verify] method of its type
    accepts; behind the packet the buffer still holds what the slot held
    before, and the slots other than the one of the guard are as they
    were. *)
Theorem lock_miss_publishes_packet_of_file (E57_MAX_DEBUG : bool)
    (c : PacketReadCache) (offset : Z) (c1 : PacketReadCache)
    (g : PacketLock) (pkt : list byte) :
  0 ≤ offset →
  (∀ j e, entries_ c !! j = Some e → logicalOffset_ e ≠ offset) →
  lock E57_MAX_DEBUG c offset = (c1, Ok (g, pkt)) →
  bytesAt (contents (cFile_ c)) offset (packetLength pkt)
  = Some (take (Z.to_nat (packetLength pkt)) pkt)
  ∧ verifyPacket E57_MAX_DEBUG (packetType pkt) pkt (packetLength pkt)
    = Ok tt
  ∧ (∃ e0, entries_ c !! cacheIndex_ g = Some e0
           ∧ drop (Z.to_nat (packetLength pkt)) pkt
             = drop (Z.to_nat (packetLength pkt)) (buffer_ e0))
  ∧ (∀ j, j ≠ cacheIndex_ g → entries_ c1 !! j = entries_ c !! j).
Proof.
  intros Hoff Hmiss Hlock.
  apply lock_Ok_inv in Hlock
    as (_ & _ & i & e1 & -> & Hi & Hes & _ & _ & _ & _ & _ & _ & Hcase).
  destruct Hcase as [(e & He & Hoe & _)|(_ & _ & Hfill)];
    [by destruct (Hmiss i e He)|].
  destruct Hfill as (e0 & header & bytes & He0 & Hh & Hb & Hv & ->).
  pose proof (packetLength_range header) as HL.
  apply verifyPacket_Ok_length in Hv as Hlen; [|lia].
  destruct Hlen as [Hlen Hty].
  assert (Hbl : Z.of_nat (length bytes) = packetLength header)
    by (eapply bytesAt_length; [done| |done]; lia).
  assert (Hag : agree 4 header (store (buffer_ e0) bytes)).
  { intros k Hk.
    rewrite <- (agree_store (buffer_ e0) bytes k) by lia.
    rewrite (bytesAt_byteAt _ _ _ _ k Hoff Hh)
      by (unfold sizeof_EmptyPacketHeader; lia).
    by rewrite (bytesAt_byteAt _ _ _ _ k Hoff Hb) by lia. }
  assert (HpL : packetLength (store (buffer_ e0) bytes) = packetLength header)
    by (symmetry; by apply (agree_packetLength 4)).
  rewrite HpL, Hty. split_and!; [|done| |].
  - rewrite Hb. f_equal. rewrite <- Hbl, Nat2Z.id. unfold store.
    by rewrite take_app_length.
  - exists e0. split; [done|]. rewrite <- Hbl, Nat2Z.id. unfold store.
    by rewrite drop_app_length.
  - intros j Hj. simpl in Hj. by rewrite Hes, list_lookup_insert_ne.
Qed.

Lemma lock_miss_publishes_packet_of_file_witness :
  bytesAt (contents exampleFile) 4 (packetLength (emptyPacket4 ++ zeros 4))
  = Some (take (Z.to_nat (packetLength (emptyPacket4 ++ zeros 4)))
            (emptyPacket4 ++ zeros 4)).
Proof.
  destruct (lock_miss_publishes_packet_of_file false
              (set_entries oneSlotCache
                 [{| logicalOffset_ := 0; buffer_ := zeros 8;
                     lastUsed_ := 0 |}])
              4
              (lock false
                 (set_entries oneSlotCache
                    [{| logicalOffset_ := 0; buffer_ := zeros 8;
                        lastUsed_ := 0 |}]) 4).1
              {| cacheIndex_ := 0 |} (emptyPacket4 ++ zeros 4))
    as (H & _).
  - lia.
  - intros [|[|j]] e; simpl; [intros [= <-]; simpl; lia|done..].
  - vm_compute. reflexivity.
  - exact H.
Defined.

(** ** Failures of [lock] *)

(** X11.  When [lock] throws on a cache that has a slot, the lock count,
    the use count, the offsets and the stamps of all slots are as before,
    and at most one slot has another buffer; the exception is an internal
    error, a bad-packet error or the error of the file, never
    [std::out_of_range]. *)
Theorem lock_failure_changes_one_buffer_at_most (E57_MAX_DEBUG : bool)
    (c : PacketReadCache) (offset : Z) (c1 : PacketReadCache) (e : exn) :
  entries_ c ≠ [] →
  lock E57_MAX_DEBUG c offset = (c1, Throw e) →
  lockCount_ c1 = lockCount_ c
  ∧ useCount_ c1 = useCount_ c
  ∧ logicalOffset_ <$> entries_ c1 = logicalOffset_ <$> entries_ c
  ∧ lastUsed_ <$> entries_ c1 = lastUsed_ <$> entries_ c
  ∧ (∃ i, ∀ j, j ≠ i → entries_ c1 !! j = entries_ c !! j)
  ∧ (e = InternalError ∨ e = BadFormat
     ∨ e = E57_EXCEPTION2 E57_ERROR_READ_FAILED).
Proof.
  intros Hne (H1 & H2 & _ & H4 & H5)%lock_Throw_inv.
  split_and!; [done|done| | | |].
  - destruct H4 as [->|(i & e0 & bytes & He0 & _ & ->)]; [done|].
    rewrite list_fmap_insert. simpl. apply list_insert_id.
    by rewrite list_lookup_fmap, He0.
  - destruct H4 as [->|(i & e0 & bytes & He0 & _ & ->)]; [done|].
    rewrite list_fmap_insert. simpl. apply list_insert_id.
    by rewrite list_lookup_fmap, He0.
  - destruct H4 as [->|(i & e0 & bytes & He0 & _ & ->)]; [by exists 0%nat|].
    exists i. intros j Hj. by rewrite list_lookup_insert_ne.
  - destruct H5 as [?|[?|[?|[_ ?]]]]; [auto..|done].
Qed.

Lemma lock_failure_changes_one_buffer_at_most_witness :
  lockCount_ (lock false oneSlotCache 8).1 = lockCount_ oneSlotCache
  ∧ useCount_ (lock false oneSlotCache 8).1 = useCount_ oneSlotCache.
Proof.
  destruct (lock_failure_changes_one_buffer_at_most false oneSlotCache 8
              (lock false oneSlotCache 8).1 BadFormat)
    as (H1 & H2 & _); [discriminate| |by split].
  apply injective_projections; [reflexivity|vm_compute; reflexivity].
Defined.

(** X12.  [readPacket] on a packet whose type byte is none of the three
    packet types throws an internal error, after the packet has been read
    into the buffer of the slot; offset and stamp of the slot stay. *)
Theorem readPacket_unknown_type (E57_MAX_DEBUG : bool) (c : PacketReadCache)
    (i : nat) (e0 : CacheEntry) (offset : Z) (header bytes : list byte) :
  entries_ c !! i = Some e0 →
  bytesAt (contents (cFile_ c)) offset sizeof_EmptyPacketHeader
  = Some header →
  bytesAt (contents (cFile_ c)) offset (packetLength header) = Some bytes →
  2 < packetType header →
  readPacket E57_MAX_DEBUG c i offset
  = (set_entries
       (set_cFile c
          {| contents := contents (cFile_ c);
             position := offset + packetLength header |})
       (<[i := {| logicalOffset_ := logicalOffset_ e0;
                  buffer_ := store (buffer_ e0) bytes;
                  lastUsed_ := lastUsed_ e0 |}]> (entries_ c)),
     Throw InternalError).
Proof.
  intros He Hh Hb Hty. unfold readPacket.
  rewrite CheckedFile_read_seek, Hh, packetLength_too_long_never, He.
  rewrite CheckedFile_read_seek. simpl contents. rewrite Hb.
  unfold verifyPacket, E57_DATA_PACKET, E57_INDEX_PACKET, E57_EMPTY_PACKET.
  rewrite !(proj2 (Z.eqb_neq (packetType header) _)) by lia. done.
Qed.

Lemma readPacket_unknown_type_witness :
  (readPacket false (set_cFile oneSlotCache unknownFile) 0 4).2
  = Throw InternalError.
Proof.
  rewrite (readPacket_unknown_type false (set_cFile oneSlotCache unknownFile)
             0 unusedEntry 4 unknownPacket4 unknownPacket4);
    [reflexivity..|vm_compute; reflexivity].
Defined.

(** ** Invariants of the cache *)

Lemma runOps_invariant (E57_MAX_DEBUG : bool) (P : PacketReadCache → Prop) :
  (∀ c op, P c → P (runOp E57_MAX_DEBUG c op)) →
  ∀ ops c, P c → P (runOps E57_MAX_DEBUG c ops).
Proof.
  intros Hstep ops. unfold runOps.
  induction ops as [|op ops IH]; intros c Hc; simpl; auto.
Qed.

Lemma lock_Throw_offsets (E57_MAX_DEBUG : bool) (c : PacketReadCache)
    (offset : Z) (c1 : PacketReadCache) (e : exn) :
  lock E57_MAX_DEBUG c offset = (c1, Throw e) →
  logicalOffset_ <$> entries_ c1 = logicalOffset_ <$> entries_ c.
Proof.
  intros (_ & _ & _ & H4 & _)%lock_Throw_inv.
  destruct H4 as [->|(i & e0 & bytes & He0 & _ & ->)]; [done|].
  rewrite list_fmap_insert. simpl. apply list_insert_id.
  by rewrite list_lookup_fmap, He0.
Qed.

Lemma PacketLock_destroy_state (guard : PacketLock) (c : PacketReadCache) :
  (PacketLock_destroy guard c).1
  = if decide (lockCount_ c = 1) then set_lockCount c 0 else c.
Proof.
  unfold PacketLock_destroy. case_decide.
  - by rewrite unlock_locked.
  - by rewrite unlock_not_locked.
Qed.

Lemma cacheOk_runOp (E57_MAX_DEBUG : bool) (N : nat) (c : PacketReadCache)
    (op : CacheOp) :
  cacheOk N c → cacheOk N (runOp E57_MAX_DEBUG c op).
Proof.
  intros (Hlc & Hlen & Hbuf). destruct op as [offset|guard]; simpl.
  - destruct (lock E57_MAX_DEBUG c offset) as [c1 [[g pkt]|e]] eqn:Hlock;
      simpl.
    + apply lock_Ok_inv in Hlock
        as (Hle & _ & i & e1 & _ & Hi & Hes & _ & Hb1 & _ & _ & Hl1 & _ & Hcase).
      assert (lockCount_ c = 0) as Hz by lia. rewrite Hz in Hl1.
      change (u32 (0 + 1)) with 1 in Hl1.
      split_and!; [lia|lia|by rewrite Hes, length_insert|].
      intros j e. rewrite Hes.
      destruct (decide (j = i)) as [->|Hne].
      * rewrite list_lookup_insert_eq by done. intros [= <-]. rewrite Hb1.
        destruct Hcase as [(e' & He' & _ & <- & _)
                          |(_ & _ & e0 & hd & bs & He0 & _ & Hbs & _ & ->)].
        -- by eapply Hbuf.
        -- apply bytesAt_length_le in Hbs.
           pose proof (packetLength_range hd).
           rewrite length_store; [by eapply Hbuf|].
           rewrite (Hbuf i e0 He0). unfold E57_DATA_PACKET_MAX. lia.
      * rewrite list_lookup_insert_ne by done. apply Hbuf.
    + apply lock_Throw_inv in Hlock as (H1 & _ & _ & H4 & _).
      split_and!; [lia|lia| |].
      * destruct H4 as [->|(i & e0 & bs & _ & _ & ->)];
          by rewrite ?length_insert.
      * destruct H4 as [->|(i & e0 & bs & He0 & Hbs & ->)]; [done|].
        intros j e'.
        destruct (decide (j = i)) as [->|Hne].
        -- rewrite list_lookup_insert_eq by (by eapply lookup_lt_Some).
           intros [= <-]. simpl.
           rewrite length_store; [by eapply Hbuf|].
           by rewrite (Hbuf i e0 He0).
        -- rewrite list_lookup_insert_ne by done. apply Hbuf.
  - rewrite PacketLock_destroy_state. case_decide; [|done].
    split_and!; simpl; [lia|lia|done|done].
Qed.

(** X13.  A cache that the constructor returns has at least one slot, and
    whatever sequence of [lock] calls and guard releases follows, in any
    order and whether they succeed or throw, the lock count stays 0 or 1,
    the number of slots stays the same and every buffer keeps its
    [E57_DATA_PACKET_MAX] bytes. *)
Theorem cache_shape_is_invariant (E57_MAX_DEBUG : bool) (f : CheckedFile)
    (N : nat) (fresh : nat → list byte) (c0 : PacketReadCache)
    (ops : list CacheOp) :
  PacketReadCache_new f N fresh = Ok c0 →
  (∀ i, length (fresh i) = Z.to_nat E57_DATA_PACKET_MAX) →
  (0 < N)%nat ∧ cacheOk N (runOps E57_MAX_DEBUG c0 ops).
Proof.
  unfold PacketReadCache_new. intros [HN [= <-]]%check_Ok Hfresh.
  split; [lia|].
  apply runOps_invariant; [intros c op; apply cacheOk_runOp|].
  split_and!; simpl; [lia|lia|by rewrite length_fmap, length_seq|].
  intros j e (i & -> & _)%list_lookup_fmap_Some. simpl. apply Hfresh.
Qed.

Lemma cache_shape_is_invariant_witness :
  (0 < 2)%nat
  ∧ cacheOk 2
      (runOps false twoSlotCache
         [OpLock 4; OpLock 16; OpRelease {| cacheIndex_ := 0 |}; OpLock 8;
          OpRelease {| cacheIndex_ := 1 |}]).
Proof.
  apply (cache_shape_is_invariant false exampleFile 2
           (fun _ => zeroBuffer) twoSlotCache).
  - reflexivity.
  - intros _. apply length_replicate.
Defined.

Lemma distinctOffsets_runOp (E57_MAX_DEBUG : bool) (c : PacketReadCache)
    (op : CacheOp) :
  distinctOffsets (logicalOffset_ <$> entries_ c) →
  distinctOffsets (logicalOffset_ <$> entries_ (runOp E57_MAX_DEBUG c op)).
Proof.
  intros Hd. destruct op as [offset|guard]; simpl.
  2:{ rewrite PacketLock_destroy_state. by case_decide. }
  destruct (lock E57_MAX_DEBUG c offset) as [c1 [[g pkt]|e]] eqn:Hlock;
    simpl; [|by rewrite (lock_Throw_offsets _ _ _ _ _ Hlock)].
  apply lock_Ok_inv in Hlock
    as (_ & _ & i & e1 & _ & Hi & -> & Ho1 & _ & _ & _ & _ & _ & Hcase).
  rewrite list_fmap_insert, Ho1.
  destruct Hcase as [(e' & He' & Hoe' & _)|(Hmiss & _)].
  - rewrite list_insert_id; [done|].
    rewrite list_lookup_fmap, He'. simpl. by rewrite Hoe'.
  - assert (Hno : ∀ j, (logicalOffset_ <$> entries_ c) !! j ≠ Some offset).
    { intros j. rewrite list_lookup_fmap.
      destruct (entries_ c !! j) as [ej|] eqn:Hej; [|done].
      simpl. intros [= Heq]. by destruct (Hmiss j ej Hej). }
    assert (Hi' : (i < length (logicalOffset_ <$> entries_ c))%nat)
      by (by rewrite length_fmap).
    intros i1 j1 o Hi1 Hj1 Hnz.
    destruct (decide (i1 = i)) as [->|Hn1];
      destruct (decide (j1 = i)) as [->|Hn2]; [done|..].
    + rewrite list_lookup_insert_eq in Hi1 by done. injection Hi1 as <-.
      rewrite list_lookup_insert_ne in Hj1 by done. by destruct (Hno j1).
    + rewrite list_lookup_insert_eq in Hj1 by done. injection Hj1 as <-.
      rewrite list_lookup_insert_ne in Hi1 by done. by destruct (Hno i1).
    + rewrite list_lookup_insert_ne in Hi1, Hj1 by done.
      by apply (Hd i1 j1 o).
Qed.

(** X14.  No packet is cached twice: on a cache that the constructor
    returns, after any sequence of [lock] calls and guard releases, no two
    slots hold the same nonzero offset; and every cache in that state
    stays in it. *)
Theorem cache_holds_each_offset_once (E57_MAX_DEBUG : bool)
    (ops : list CacheOp) :
  (∀ c,
     distinctOffsets (logicalOffset_ <$> entries_ c) →
     distinctOffsets
       (logicalOffset_ <$> entries_ (runOps E57_MAX_DEBUG c ops)))
  ∧ (∀ f N fresh c0,
       PacketReadCache_new f N fresh = Ok c0 →
       distinctOffsets
         (logicalOffset_ <$> entries_ (runOps E57_MAX_DEBUG c0 ops))).
Proof.
  assert (Hrun : ∀ c,
            distinctOffsets (logicalOffset_ <$> entries_ c) →
            distinctOffsets
              (logicalOffset_ <$> entries_ (runOps E57_MAX_DEBUG c ops))).
  { intros c.
    apply (runOps_invariant E57_MAX_DEBUG
             (fun c => distinctOffsets (logicalOffset_ <$> entries_ c))).
    intros c' op. apply distinctOffsets_runOp. }
  split; [done|].
  intros f N fresh c0. unfold PacketReadCache_new.
  intros [_ [= <-]]%check_Ok. apply Hrun. simpl.
  intros i j o Hi Hj Hnz.
  apply list_lookup_fmap_Some in Hi as (e & -> & He).
  apply list_lookup_fmap_Some in He as (k & -> & _). done.
Qed.

Lemma cache_holds_each_offset_once_witness :
  distinctOffsets
    (logicalOffset_
       <$> entries_ (runOps false twoSlotCache
                       [OpLock 4; OpRelease {| cacheIndex_ := 0 |};
                        OpLock 16])).
Proof.
  apply (proj2 (cache_holds_each_offset_once false
                  [OpLock 4; OpRelease {| cacheIndex_ := 0 |}; OpLock 16])
           exampleFile 2%nat (fun _ => zeroBuffer) twoSlotCache).
  reflexivity.
Defined.

(** X15.  As long as the use count has not wrapped (no stamp is above it
    and it is below [2^32 - 1]), a successful [lock] gives its slot a
    stamp above that of every other slot and keeps all stamps at or below
    the use count; so in a cache of two or more slots the slot of the
    packet just locked is not the one the next replacement picks. *)
Theorem locked_slot_is_not_next_victim (E57_MAX_DEBUG : bool)
    (c : PacketReadCache) (offset : Z) (c1 : PacketReadCache)
    (g : PacketLock) (pkt : list byte) :
  (∀ j e, entries_ c !! j = Some e → lastUsed_ e ≤ useCount_ c) →
  0 ≤ useCount_ c → useCount_ c + 1 < 2 ^ 32 →
  lock E57_MAX_DEBUG c offset = (c1, Ok (g, pkt)) →
  useCount_ c1 = useCount_ c + 1
  ∧ (∀ j e, entries_ c1 !! j = Some e → lastUsed_ e ≤ useCount_ c1)
  ∧ (∀ j e, j ≠ cacheIndex_ g → entries_ c1 !! j = Some e →
            lastUsed_ e < useCount_ c1)
  ∧ (∀ i, (2 ≤ length (entries_ c1))%nat →
          firstMinimum (entries_ c1) i → i ≠ cacheIndex_ g).
Proof.
  intros Hstamps Hu0 Hu1 Hlock.
  apply lock_Ok_inv in Hlock
    as (_ & _ & i & e1 & -> & Hi & Hes & _ & _ & Hs1 & Huc & _).
  rewrite u32_small in Hs1, Huc by lia. simpl.
  assert (Hothers : ∀ j e, j ≠ i → entries_ c1 !! j = Some e →
                           lastUsed_ e < useCount_ c1).
  { intros j e Hj. rewrite Hes, list_lookup_insert_ne by done.
    intros He. specialize (Hstamps j e He). lia. }
  split_and!; [done| |done|].
  - intros j e. destruct (decide (j = i)) as [->|Hne].
    + rewrite Hes, list_lookup_insert_eq by done. intros [= <-]. lia.
    + intros He. specialize (Hothers j e Hne He). lia.
  - intros i' Hlen (e & He & Hle & _) ->.
    rewrite Hes, list_lookup_insert_eq in He by done. injection He as <-.
    set (j := if decide (i = 0%nat) then 1%nat else 0%nat).
    assert (Hj : j ≠ i) by (unfold j; case_decide; lia).
    destruct (lookup_lt_is_Some_2 (entries_ c1) j) as [e He];
      [unfold j; case_decide; lia|].
    specialize (Hle j e He). specialize (Hothers j e Hj He). lia.
Qed.

Lemma locked_slot_is_not_next_victim_witness :
  useCount_ (lock false
               (set_entries twoSlotCache
                  [{| logicalOffset_ := 0; buffer_ := zeros 8;
                      lastUsed_ := 0 |};
                   {| logicalOffset_ := 0; buffer_ := zeros 8;
                      lastUsed_ := 0 |}]) 4).1
  = useCount_ twoSlotCache + 1.
Proof.
  apply (locked_slot_is_not_next_victim false
           (set_entries twoSlotCache
              [{| logicalOffset_ := 0; buffer_ := zeros 8; lastUsed_ := 0 |};
               {| logicalOffset_ := 0; buffer_ := zeros 8; lastUsed_ := 0 |}])
           4 _ {| cacheIndex_ := 0 |} (emptyPacket4 ++ zeros 4)).
  - intros [|[|j]] e; simpl; [intros [= <-]; simpl; lia..|done].
  - simpl. lia.
  - simpl. lia.
  - vm_compute. reflexivity.
Defined.

(** X16.  The hiccup at the wrap of the use count: a [lock] that succeeds
    when [useCount_] is [2^32 - 1] stamps its slot with 0 and leaves the
    use count at 0, so if every other slot has a positive stamp, the slot
    of the packet just locked is the one the next replacement picks. *)
Theorem useCount_wrap_makes_locked_slot_oldest (E57_MAX_DEBUG : bool)
    (c : PacketReadCache) (offset : Z) (c1 : PacketReadCache)
    (g : PacketLock) (pkt : list byte) :
  useCount_ c = 2 ^ 32 - 1 →
  lock E57_MAX_DEBUG c offset = (c1, Ok (g, pkt)) →
  useCount_ c1 = 0
  ∧ (∃ e, entries_ c1 !! cacheIndex_ g = Some e ∧ lastUsed_ e = 0)
  ∧ ((∀ j e, j ≠ cacheIndex_ g → entries_ c !! j = Some e →
             0 < lastUsed_ e) →
     firstMinimum (entries_ c1) (cacheIndex_ g)).
Proof.
  intros Hu Hlock.
  apply lock_Ok_inv in Hlock
    as (_ & _ & i & e1 & -> & Hi & Hes & _ & _ & Hs1 & Huc & _).
  rewrite Hu in Hs1, Huc.
  change (u32 (2 ^ 32 - 1 + 1)) with 0 in Hs1, Huc. simpl.
  assert (He1 : entries_ c1 !! i = Some e1)
    by (rewrite Hes; by apply list_lookup_insert_eq).
  split_and!; [done|by exists e1|].
  intros Hpos. exists e1. split_and!; [done| |].
  - intros j e. destruct (decide (j = i)) as [->|Hne].
    + rewrite He1. intros [= <-]. lia.
    + rewrite Hes, list_lookup_insert_ne by done. intros He.
      specialize (Hpos j e Hne He). lia.
  - intros j e Hj. rewrite Hes, list_lookup_insert_ne by lia. intros He.
    specialize (Hpos j e ltac:(lia) He). lia.
Qed.

Lemma useCount_wrap_makes_locked_slot_oldest_witness :
  useCount_ (lock false
               (set_useCount
                  (set_entries twoSlotCache
                     [{| logicalOffset_ := 0; buffer_ := zeros 8;
                         lastUsed_ := 5 |};
                      {| logicalOffset_ := 16; buffer_ := zeros 8;
                         lastUsed_ := 9 |}])
                  (2 ^ 32 - 1)) 4).1 = 0.
Proof.
  apply (useCount_wrap_makes_locked_slot_oldest false
           (set_useCount
              (set_entries twoSlotCache
                 [{| logicalOffset_ := 0; buffer_ := zeros 8;
                     lastUsed_ := 5 |};
                  {| logicalOffset_ := 16; buffer_ := zeros 8;
                     lastUsed_ := 9 |}])
              (2 ^ 32 - 1))
           4 _ {| cacheIndex_ := 0 |} (emptyPacket4 ++ zeros 4)).
  - reflexivity.
  - vm_compute. reflexivity.
Defined.
